(** * twitter.js: the paginated search book and the client's stream handlers

    A shallow embedding of [SearchTweetsBook] ([src/books/SearchTweetsBook.ts])
    and of the parts of [Client] ([src/client/Client.ts]) that log in with a
    bearer token, create books and listen to the filtered and sampled streams,
    followed by the properties proved about them.

    The sources hold the book in two revisions: one that extends [BaseBook]
    and keeps its cursor in [#nextToken] and [#hasMadeInitialRequest], and one
    that extends [BaseRangeBook] and keeps it in [_nextToken] and
    [_hasMadeInitialRequest]. [fetchNextPage] and [#fetchPages] are the same
    in both up to these names; the embedding follows the first, which declares
    all its fields itself.

    Conventions of the embedding.
    - A property that is [undefined] or [null] at run time is [None].
    - The numbers the code handles (page sizes, result counts, epoch
      milliseconds) are integers and are modelled in [Z].
    - An [async] method is modelled by the state it leaves behind, the
      requests it handed to the transport and the value its promise settles
      with. Calls on one book do not overlap.
    - Listeners of the events the client emits do not throw. *)

From stdpp Require Import base option list strings gmap.
From Stdlib Require Import ZArith.

Open Scope Z_scope.

(** ** JavaScript truthiness of the values the code tests *)

(** [if (s)] for [s : string | null | undefined]: the empty string is falsy. *)
Definition truthy_string (s : option string) : bool :=
  match s with
  | Some v => negb (bool_decide (v = ""))
  | None => false
  end.

(** [if (n)] for [n : number | null]: zero is falsy. *)
Definition truthy_number (n : option Z) : bool :=
  match n with
  | Some v => negb (v =? 0)
  | None => false
  end.

(** ** [new Date(ms).toISOString()] *)
Module Date.

(** Time values are clipped to 8.64e15 ms either side of the epoch; beyond
    that the date is invalid. *)
Definition maxTime : Z := 8640000000000000.
Definition msPerDay : Z := 86400000.

Definition TimeClip (t : Z) : option Z :=
  if Z.abs t <=? maxTime then Some t else None.

(** Proleptic Gregorian (year, month, day) of a day number counted from
    1970-01-01. *)
Definition civil_from_days (day : Z) : Z * Z * Z :=
  let z := day + 719468 in
  let era := z / 146097 in
  let doe := z - era * 146097 in
  let yoe := (doe - doe / 1460 + doe / 36524 - doe / 146096) / 365 in
  let doy := doe - (365 * yoe + yoe / 4 - yoe / 100) in
  let mp := (5 * doy + 2) / 153 in
  let d := doy - (153 * mp + 2) / 5 + 1 in
  let m := if mp <? 10 then mp + 3 else mp - 9 in
  let y := yoe + era * 400 in
  (if m <=? 2 then y + 1 else y, m, d).

Definition digit (n : Z) : string :=
  String (Ascii.ascii_of_N (48 + Z.to_N (n `mod` 10))) "".

(** [n] in decimal on exactly [width] digits. *)
Fixpoint fixed_decimal (width : nat) (n : Z) : string :=
  match width with
  | O => ""
  | S w => fixed_decimal w (n / 10) +:+ digit n
  end.

(** Years 0..9999 print on four digits, all others signed on six. *)
Definition year_string (y : Z) : string :=
  if (0 <=? y) && (y <=? 9999) then fixed_decimal 4 y
  else if y <? 0 then "-" +:+ fixed_decimal 6 (- y)
  else "+" +:+ fixed_decimal 6 y.

Definition format (t : Z) : string :=
  let '(y, m, d) := civil_from_days (t / msPerDay) in
  let ms := t `mod` msPerDay in
  year_string y +:+ "-" +:+ fixed_decimal 2 m +:+ "-" +:+ fixed_decimal 2 d
    +:+ "T" +:+ fixed_decimal 2 (ms / 3600000)
    +:+ ":" +:+ fixed_decimal 2 ((ms / 60000) `mod` 60)
    +:+ ":" +:+ fixed_decimal 2 ((ms / 1000) `mod` 60)
    +:+ "." +:+ fixed_decimal 3 (ms `mod` 1000) +:+ "Z".

(** [None] is the [RangeError] that [toISOString] throws on an invalid
    date. *)
Definition toISOString (t : Z) : option string :=
  format <$> TimeClip t.

End Date.

(** ** Exceptions a call can reject with *)
Inductive Exception :=
  | CustomError (code : string)
  | CustomTypeError (code param expected : string) (article : bool)
  | RangeError
  | TypeError
  | TransportFailure (reason : string).

Definition Snowflake := string.

(** ** The tweet manager behind [client.tweets] *)
Module TweetManager.

(** A raw API object: its identifier and the fields the payload carries. *)
Record RawObject := {
  raw_id : Snowflake;
  raw_fields : gmap string string;
}.

(** The [includes] side-table of a response: objects of other kinds, each
    under the name of its kind. *)
Definition Includes := list (string * RawObject).

Record Entity := {
  id : Snowflake;
  fields : gmap string string;
}.

Definition Store := gmap (string * Snowflake) Entity.

(** Modelled from the spec: [EntityStore.upsert], missing from the sources.
    Inserts the object under (kind, identifier) or merges it into the cached
    one: a field present in the new payload overwrites, a field absent from
    it is kept. Returns the store and the cached entity. *)
Definition upsert (s : Store) (kind : string) (rid : Snowflake)
    (raw : RawObject) : Store * Entity :=
  let old := default ∅ (fields <$> s !! (kind, rid)) in
  let e := {| id := rid; fields := raw_fields raw ∪ old |} in
  (<[(kind, rid) := e]> s, e).

(** Modelled from the spec: [TweetManager.add] ([_add] in later revisions),
    missing from the sources. Every object of the side-table is upserted
    first, then the primary tweet, which is returned. *)
Definition add (s : Store) (rid : Snowflake) (raw : RawObject)
    (inc : option Includes) : Store * Entity :=
  let s1 := foldl (fun acc '(kind, o) => (upsert acc kind (raw_id o) o).1)
                  s (default [] inc) in
  upsert s1 "tweet" rid raw.

End TweetManager.

(** ** [Collection]: a JavaScript [Map], in insertion order *)
Module Collection.
Section Collection.
Context {K V : Type} (same : K → K → bool).

(** [Map.prototype.set]: a key already present keeps its place and takes the
    new value; a new key goes to the end. [same] is the key equality. *)
Fixpoint set (c : list (K * V)) (k : K) (v : V) : list (K * V) :=
  match c with
  | [] => [(k, v)]
  | (k', v') :: rest =>
      if same k' k then (k', v) :: rest else (k', v') :: set rest k v
  end.

(** [Map.prototype.get] *)
Fixpoint get (c : list (K * V)) (k : K) : option V :=
  match c with
  | [] => None
  | (k', v') :: rest => if same k' k then Some v' else get rest k
  end.

End Collection.

Definition keys {K V : Type} (c : list (K * V)) : list K := c.*1.

End Collection.

(** Key equality of a [Map] whose keys are identifier strings. *)
Definition same_id (a b : Snowflake) : bool := bool_decide (a = b).

(** ** [SearchTweetsBook] *)
Module Books.
Import TweetManager.

(** [client.options.queryParameters] *)
Record QueryParameters := {
  tweetFields : option (list string);
  userFields : option (list string);
  mediaFields : option (list string);
  placeFields : option (list string);
  pollFields : option (list string);
  tweetExpansions : option (list string);
  userExpansions : option (list string);
}.

(** The part of the client a book reads and writes. *)
Record Client := {
  queryParameters : option QueryParameters;
  tweets : Store;
}.

(** [GetTweetSearchQuery]; a field that was never assigned is [None]. *)
Record GetTweetSearchQuery := {
  q_expansions : option (list string);
  q_tweet_fields : option (list string);
  q_user_fields : option (list string);
  q_media_fields : option (list string);
  q_place_fields : option (list string);
  q_poll_fields : option (list string);
  q_query : option string;
  q_next_token : option string;
  q_since_id : option Snowflake;
  q_until_id : option Snowflake;
  q_max_results : option Z;
  q_start_time : option string;
  q_end_time : option string;
}.

Record Meta := {
  next_token : option string;
  result_count : Z;
}.

(** [GetTweetSearchResponse]; the API leaves [data] out of a page without
    results. *)
Record GetTweetSearchResponse := {
  data : option (list RawObject);
  includes : option Includes;
  meta : Meta;
}.

(** [client._api.tweets.search.recent.get]: one awaited request, which
    resolves with a decoded response or rejects. *)
Definition Transport := GetTweetSearchQuery → string + GetTweetSearchResponse.

(** [SearchTweetsBookOptions] as the constructor reads them. *)
Record SearchTweetsBookOptions := {
  opt_query : option string;
  opt_afterTweetId : option Snowflake;
  opt_beforeTweetId : option Snowflake;
  opt_afterTimestamp : option Z;
  opt_beforeTimestamp : option Z;
  opt_maxResultsPerPage : option Z;
}.

Record SearchTweetsBook := {
  nextToken : option string;
  hasMadeInitialRequest : bool;
  maxResultsPerPage : option Z;
  hasMore : bool;
  query : option string;
  afterTweetId : option Snowflake;
  beforeTweetId : option Snowflake;
  afterTimestamp : option Z;
  beforeTimestamp : option Z;
}.

(** The constructor. The two private fields start out [undefined]. *)
Definition new (options : SearchTweetsBookOptions) : SearchTweetsBook :=
  {| nextToken := None;
     hasMadeInitialRequest := false;
     hasMore := true;
     query := opt_query options;
     afterTweetId := opt_afterTweetId options;
     beforeTweetId := opt_beforeTweetId options;
     afterTimestamp := opt_afterTimestamp options;
     beforeTimestamp := opt_beforeTimestamp options;
     maxResultsPerPage := opt_maxResultsPerPage options |}.

Definition set_hasMadeInitialRequest (v : bool) (b : SearchTweetsBook) :=
  {| nextToken := nextToken b; hasMadeInitialRequest := v;
     maxResultsPerPage := maxResultsPerPage b; hasMore := hasMore b;
     query := query b; afterTweetId := afterTweetId b;
     beforeTweetId := beforeTweetId b; afterTimestamp := afterTimestamp b;
     beforeTimestamp := beforeTimestamp b |}.

(** [this.#nextToken = t; this.hasMore = t ? true : false] *)
Definition set_cursor (t : option string) (b : SearchTweetsBook) :=
  {| nextToken := t; hasMadeInitialRequest := hasMadeInitialRequest b;
     maxResultsPerPage := maxResultsPerPage b; hasMore := truthy_string t;
     query := query b; afterTweetId := afterTweetId b;
     beforeTweetId := beforeTweetId b; afterTimestamp := afterTimestamp b;
     beforeTimestamp := beforeTimestamp b |}.

Definition set_store (s : Store) (c : Client) : Client :=
  {| queryParameters := queryParameters c; tweets := s |}.

(** What one call leaves behind: the book, the client, the requests it
    handed to the transport, and the value the promise settles with. *)
Record Outcome := {
  book : SearchTweetsBook;
  client : Client;
  requests : list GetTweetSearchQuery;
  result : Exception + list (Snowflake * Entity);
}.

(** [query.since_id = v] *)
Definition set_since_id (v : option Snowflake) (q : GetTweetSearchQuery)
    : GetTweetSearchQuery :=
  {| q_expansions := q_expansions q; q_tweet_fields := q_tweet_fields q;
     q_user_fields := q_user_fields q; q_media_fields := q_media_fields q;
     q_place_fields := q_place_fields q; q_poll_fields := q_poll_fields q;
     q_query := q_query q; q_next_token := q_next_token q; q_since_id := v;
     q_until_id := q_until_id q; q_max_results := q_max_results q;
     q_start_time := q_start_time q; q_end_time := q_end_time q |}.

(** [query.until_id = v] *)
Definition set_until_id (v : option Snowflake) (q : GetTweetSearchQuery)
    : GetTweetSearchQuery :=
  {| q_expansions := q_expansions q; q_tweet_fields := q_tweet_fields q;
     q_user_fields := q_user_fields q; q_media_fields := q_media_fields q;
     q_place_fields := q_place_fields q; q_poll_fields := q_poll_fields q;
     q_query := q_query q; q_next_token := q_next_token q;
     q_since_id := q_since_id q; q_until_id := v;
     q_max_results := q_max_results q; q_start_time := q_start_time q;
     q_end_time := q_end_time q |}.

(** [query.max_results = v] *)
Definition set_max_results (v : option Z) (q : GetTweetSearchQuery)
    : GetTweetSearchQuery :=
  {| q_expansions := q_expansions q; q_tweet_fields := q_tweet_fields q;
     q_user_fields := q_user_fields q; q_media_fields := q_media_fields q;
     q_place_fields := q_place_fields q; q_poll_fields := q_poll_fields q;
     q_query := q_query q; q_next_token := q_next_token q;
     q_since_id := q_since_id q; q_until_id := q_until_id q;
     q_max_results := v; q_start_time := q_start_time q;
     q_end_time := q_end_time q |}.

(** [query.start_time = v] *)
Definition set_start_time (v : option string) (q : GetTweetSearchQuery)
    : GetTweetSearchQuery :=
  {| q_expansions := q_expansions q; q_tweet_fields := q_tweet_fields q;
     q_user_fields := q_user_fields q; q_media_fields := q_media_fields q;
     q_place_fields := q_place_fields q; q_poll_fields := q_poll_fields q;
     q_query := q_query q; q_next_token := q_next_token q;
     q_since_id := q_since_id q; q_until_id := q_until_id q;
     q_max_results := q_max_results q; q_start_time := v;
     q_end_time := q_end_time q |}.

(** [query.end_time = v] *)
Definition set_end_time (v : option string) (q : GetTweetSearchQuery)
    : GetTweetSearchQuery :=
  {| q_expansions := q_expansions q; q_tweet_fields := q_tweet_fields q;
     q_user_fields := q_user_fields q; q_media_fields := q_media_fields q;
     q_place_fields := q_place_fields q; q_poll_fields := q_poll_fields q;
     q_query := q_query q; q_next_token := q_next_token q;
     q_since_id := q_since_id q; q_until_id := q_until_id q;
     q_max_results := q_max_results q; q_start_time := q_start_time q;
     q_end_time := v |}.

(** The first part of [#fetchPages], up to the request: the query object
    literal, then the five guarded assignments in the order of the source.
    [None] is the [RangeError] that [toISOString] throws on a date out of
    range. *)
Definition build_query (b : SearchTweetsBook) (c : Client)
    (token : option string) : option GetTweetSearchQuery :=
  let queryParameters := queryParameters c in
  let query :=
    {| q_expansions := queryParameters ≫= tweetExpansions;
       q_tweet_fields := queryParameters ≫= tweetFields;
       q_user_fields := queryParameters ≫= userFields;
       q_media_fields := queryParameters ≫= mediaFields;
       q_place_fields := queryParameters ≫= placeFields;
       q_poll_fields := queryParameters ≫= pollFields;
       q_query := query b;
       q_next_token := token;
       q_since_id := None; q_until_id := None; q_max_results := None;
       q_start_time := None; q_end_time := None |} in
  let query := if truthy_string (afterTweetId b)
               then set_since_id (afterTweetId b) query else query in
  let query := if truthy_string (beforeTweetId b)
               then set_until_id (beforeTweetId b) query else query in
  let query := if truthy_number (maxResultsPerPage b)
               then set_max_results (maxResultsPerPage b) query else query in
  query ← (if truthy_number (afterTimestamp b)
           then iso ← afterTimestamp b ≫= Date.toISOString;
                Some (set_start_time (Some iso) query)
           else Some query);
  query ← (if truthy_number (beforeTimestamp b)
           then iso ← beforeTimestamp b ≫= Date.toISOString;
                Some (set_end_time (Some iso) query)
           else Some query);
  Some query.

(** The [for ... of] loop over the raw tweets. The raw tweets are objects,
    as the response type has them, and the manager returns a tweet for each:
    the loop modelled here runs to its end. A loop cut short by an exception
    (a [null] among the raw tweets, a manager that throws) is outside this
    model, and no statement below speaks of one. *)
Fixpoint collect (s : Store) (col : list (Snowflake * Entity))
    (raws : list RawObject) (inc : option Includes)
    : Store * list (Snowflake * Entity) :=
  match raws with
  | [] => (s, col)
  | rawTweet :: rest =>
      let '(s', tweet) := add s (raw_id rawTweet) rawTweet inc in
      collect s' (Collection.set same_id col (id tweet) tweet) rest inc
  end.

(** [#fetchPages(token?)] *)
Definition fetchPages (b : SearchTweetsBook) (c : Client) (api : Transport)
    (token : option string) : Outcome :=
  match build_query b c token with
  | None =>
      {| book := b; client := c; requests := []; result := inl RangeError |}
  | Some q =>
      match api q with
      | inl reason =>
          {| book := b; client := c; requests := [q];
             result := inl (TransportFailure reason) |}
      | inr resp =>
          let b' := set_cursor (next_token (meta resp)) b in
          if result_count (meta resp) =? 0 then
            {| book := b'; client := c; requests := [q]; result := inr [] |}
          else
            match data resp with
            | None =>
                {| book := b'; client := c; requests := [q];
                   result := inl TypeError |}
            | Some rawTweets =>
                let '(s, col) :=
                  collect (tweets c) [] rawTweets (includes resp) in
                {| book := b'; client := set_store s c; requests := [q];
                   result := inr col |}
            end
      end
  end.

(** [fetchNextPage()] *)
Definition fetchNextPage (b : SearchTweetsBook) (c : Client)
    (api : Transport) : Outcome :=
  if negb (hasMadeInitialRequest b) then
    fetchPages (set_hasMadeInitialRequest true b) c api None
  else if negb (truthy_string (nextToken b)) then
    {| book := b; client := c; requests := [];
       result := inl (CustomError "PAGINATED_RESPONSE_TAIL_REACHED") |}
  else fetchPages b c api (nextToken b).

(** A book's lifetime: one call after the other, each against the transport
    as it answers at that moment. *)
Fixpoint run (b : SearchTweetsBook) (c : Client) (apis : list Transport)
    : list Outcome :=
  match apis with
  | [] => []
  | api :: rest =>
      let o := fetchNextPage b c api in
      o :: run (book o) (client o) rest
  end.

(** The outcome of the guard of [fetchNextPage]: the call rejects, nothing
    was requested and nothing changed. *)
Definition tail_reached (b : SearchTweetsBook) (c : Client) : Outcome :=
  {| book := b; client := c; requests := [];
     result := inl (CustomError "PAGINATED_RESPONSE_TAIL_REACHED") |}.

(** The call handed a request to the transport, which answered [resp]. *)
Definition fetched (b : SearchTweetsBook) (c : Client) (api : Transport)
    (resp : GetTweetSearchResponse) : Prop :=
  ∃ q, requests (fetchNextPage b c api) = [q] ∧ api q = inr resp.

(** The call handed a request to the transport, which rejected it. *)
Definition fetch_failed (b : SearchTweetsBook) (c : Client) (api : Transport)
    : Prop :=
  ∃ q reason, requests (fetchNextPage b c api) = [q] ∧ api q = inl reason.

(** The part of the book that pagination moves. *)
Definition cursor (b : SearchTweetsBook) : option string * bool * bool :=
  (nextToken b, hasMore b, hasMadeInitialRequest b).

(** The token a call sends and the book it sends it from. *)
Definition sending (b : SearchTweetsBook) : SearchTweetsBook * option string :=
  if negb (hasMadeInitialRequest b)
  then (set_hasMadeInitialRequest true b, None)
  else (b, nextToken b).

(** The range bounds of a book. *)
Definition bounds (b : SearchTweetsBook) :=
  (afterTweetId b, beforeTweetId b, maxResultsPerPage b,
   afterTimestamp b, beforeTimestamp b).

(** The query carries the bounds of the book the way [#fetchPages] assigns
    them. *)
Definition carries_bounds (b : SearchTweetsBook) (q : GetTweetSearchQuery)
    : Prop :=
  q_since_id q = (if truthy_string (afterTweetId b) then afterTweetId b else None) ∧
  q_until_id q = (if truthy_string (beforeTweetId b) then beforeTweetId b else None) ∧
  q_max_results q
  = (if truthy_number (maxResultsPerPage b) then maxResultsPerPage b else None) ∧
  q_start_time q
  = (if truthy_number (afterTimestamp b)
     then afterTimestamp b ≫= Date.toISOString else None) ∧
  q_end_time q
  = (if truthy_number (beforeTimestamp b)
     then beforeTimestamp b ≫= Date.toISOString else None).

(** The cursor states of the specification, read off the two private
    fields. *)
Inductive CursorState := NotStarted | HasMore | Exhausted.

Definition cursor_state (b : SearchTweetsBook) : CursorState :=
  if negb (hasMadeInitialRequest b) then NotStarted
  else if truthy_string (nextToken b) then HasMore
  else Exhausted.

(** The keys of a [Map] after one more [set]. *)
Definition push_key (ks : list Snowflake) (k : Snowflake) : list Snowflake :=
  if bool_decide (k ∈ ks) then ks else ks ++ [k].

(** The identifiers of a page, each at the place where it is first met;
    [seen] are those met before the page. *)
Fixpoint first_occurrences (seen ids : list Snowflake) : list Snowflake :=
  match ids with
  | [] => []
  | i :: rest =>
      if bool_decide (i ∈ seen) then first_occurrences seen rest
      else i :: first_occurrences (i :: seen) rest
  end.

(** The calls to the manager that the tweets of a page give rise to, one per
    tweet in the order of the response: the store after the last call, and
    what each call returned. *)
Fixpoint add_all (s : Store) (raws : list RawObject) (inc : option Includes)
    : Store * list Entity :=
  match raws with
  | [] => (s, [])
  | raw :: rest =>
      let '(s1, tweet) := add s (raw_id raw) raw inc in
      let '(s2, tweets) := add_all s1 rest inc in
      (s2, tweet :: tweets)
  end.

(** One step of the loop once the manager has returned: the tweet is set
    under its identifier. *)
Definition set_tweet (col : list (Snowflake * Entity)) (t : Entity) :=
  Collection.set same_id col (id t) t.

(** The last of the tweets that has the identifier [k]. *)
Definition latest (k : Snowflake) (ts : list Entity) : option Entity :=
  last (filter (λ t, id t = k) ts).

(** The transition rule with [hasMore] read as "a token is stored". *)
Definition hasMore_is_token_presence : Prop :=
  ∀ b c api resp, fetched b c api resp →
    hasMore (book (fetchNextPage b c api))
    = bool_decide (nextToken (book (fetchNextPage b c api)) ≠ None).

(** The request-shaping rule with "whenever each is non-null". *)
Definition bounds_sent_when_non_null : Prop :=
  ∀ b c apis o q, o ∈ run b c apis → q ∈ requests o →
    (∀ v, afterTweetId b = Some v → q_since_id q = Some v) ∧
    (∀ v, beforeTweetId b = Some v → q_until_id q = Some v) ∧
    (∀ n, maxResultsPerPage b = Some n → q_max_results q = Some n) ∧
    (∀ t, afterTimestamp b = Some t → q_start_time q = Date.toISOString t) ∧
    (∀ t, beforeTimestamp b = Some t → q_end_time q = Date.toISOString t).

End Books.

(** ** JavaScript values and [JSON.parse] *)
Module JS.

(** A JavaScript string: its UTF-16 code units. *)
Definition jsstring := list N.

Definition str (s : string) : jsstring :=
  Ascii.N_of_ascii <$> String.list_ascii_of_string s.

(** JSON text written with an apostrophe wherever it has a double quote. *)
Definition text (s : string) : jsstring :=
  (λ c, if (c =? 39)%N then 34%N else c) <$> str s.

(** The values [JSON.parse] builds, and [undefined]. A number is kept as the
    decimal [m * 10 ^ e] of the text; the double it stands for is
    [to_double m e] below. An object keeps its members in the order of the
    text, duplicates included. *)
#[warnings="-register-all"] Inductive Value :=
  | Undefined
  | Null
  | Bool (b : bool)
  | Number (m e : Z)
  | Str (s : jsstring)
  | Array (elements : list Value)
  | Object (members : list (jsstring * Value)).

Definition typeof (v : Value) : string :=
  match v with
  | Undefined => "undefined"
  | Null => "object"
  | Bool _ => "boolean"
  | Number _ _ => "number"
  | Str _ => "string"
  | Array _ | Object _ => "object"
  end.

(** The member of an object under a name; of two members with one name
    the later one counts. *)
Fixpoint member (ms : list (jsstring * Value)) (k : jsstring) : option Value :=
  match ms with
  | [] => None
  | (k', v) :: rest =>
      match member rest k with
      | Some v' => Some v'
      | None => if bool_decide (k' = k) then Some v else None
      end
  end.

(** [v.k] for a name [k] that no built-in prototype defines ([data], [id],
    [matching_rules], [tag]): a [TypeError] on [undefined] and [null], the
    member on an object, [undefined] on everything else. *)
Definition get (v : Value) (k : jsstring) : Exception + Value :=
  match v with
  | Undefined | Null => inl TypeError
  | Object ms => inr (default Undefined (member ms k))
  | _ => inr Undefined
  end.

(** *** The number a decimal stands for

    [JSON.parse] turns a number of the text into the IEEE 754 double nearest
    to it, ties to the even mantissa. A finite double other than zero is
    [mantissa * 2 ^ exponent] in exactly one way with
    [2 ^ 52 <= mantissa < 2 ^ 53] and [-1074 <= exponent <= 971], or with
    [0 < mantissa < 2 ^ 52] and [exponent = -1074]. The two zeros are one
    value to [Map]. *)
Inductive double :=
  | DZero
  | DFinite (negative : bool) (mantissa exponent : Z)
  | DInfinity (negative : bool).

(** [n / d] rounded to the nearest integer, a tie to the even one; for
    [0 <= n] and [0 < d]. *)
Definition round_half_even (n d : Z) : Z :=
  let q := n / d in
  let r := n `mod` d in
  if (d <? 2 * r) || ((2 * r =? d) && Z.odd q) then q + 1 else q.

(** The double nearest to [m * 10 ^ e]. *)
Definition to_double (m e : Z) : double :=
  if m =? 0 then DZero
  else
    let num := if 0 <=? e then Z.abs m * 10 ^ e else Z.abs m in
    let den := if 0 <=? e then 1 else 10 ^ (- e) in
    (* [k] is the integer with [2 ^ k <= num / den < 2 ^ (k + 1)] *)
    let k0 := Z.log2 num - Z.log2 den in
    let k := if den * 2 ^ Z.max 0 k0 <=? num * 2 ^ Z.max 0 (- k0)
             then k0 else k0 - 1 in
    let ex := Z.max (k - 52) (-1074) in
    let mant := round_half_even (num * 2 ^ Z.max 0 (- ex))
                                (den * 2 ^ Z.max 0 ex) in
    let ex' := if mant =? 2 ^ 53 then ex + 1 else ex in
    let mant' := if mant =? 2 ^ 53 then 2 ^ 52 else mant in
    if mant' =? 0 then DZero
    else if 971 <? ex' then DInfinity (m <? 0)
    else DFinite (m <? 0) mant' ex'.

Definition same_double (a b : double) : bool :=
  match a, b with
  | DZero, DZero => true
  | DFinite s1 m1 e1, DFinite s2 m2 e2 =>
      bool_decide (s1 = s2) && (m1 =? m2) && (e1 =? e2)
  | DInfinity s1, DInfinity s2 => bool_decide (s1 = s2)
  | _, _ => false
  end.

(** SameValueZero, the key equality of [Map]. Arrays and objects are
    compared by identity, and two values read from a JSON text are never
    the same object. Numbers are compared as the doubles they are. *)
Definition sameValueZero (a b : Value) : bool :=
  match a, b with
  | Undefined, Undefined => true
  | Null, Null => true
  | Bool x, Bool y => bool_decide (x = y)
  | Number m1 e1, Number m2 e2 =>
      same_double (to_double m1 e1) (to_double m2 e2)
  | Str x, Str y => bool_decide (x = y)
  | _, _ => false
  end.

(** *** Lexical grammar *)
Inductive token :=
  | TLBrace | TRBrace | TLBracket | TRBracket | TColon | TComma
  | TString (s : jsstring)
  | TNumber (m e : Z)
  | TTrue | TFalse | TNull.

(** Where the lexer stands inside a number. *)
Inductive num_phase :=
  | NMinus      (* after the sign: a digit must follow *)
  | NZero       (* after a leading zero *)
  | NInt        (* in the integer digits *)
  | NDot        (* after the point: a digit must follow *)
  | NFrac       (* in the fraction digits *)
  | NExpStart   (* after e or E *)
  | NExpSign    (* after the sign of the exponent *)
  | NExp.       (* in the exponent digits *)

Record number := {
  neg : bool;
  mant : Z;
  frac : Z;
  eneg : bool;
  expo : Z;
}.

Definition number_token (n : number) : token :=
  TNumber (if neg n then - mant n else mant n)
          ((if eneg n then - expo n else expo n) - frac n).

Inductive lex_state :=
  | LStart
  | LString (acc : jsstring)
  | LEscape (acc : jsstring)
  | LUnicode (acc : jsstring) (more : nat) (code : N)
  | LWord (rest : jsstring) (tok : token)
  | LNumber (ph : num_phase) (n : number).

Definition is_whitespace (c : N) : bool :=
  ((c =? 32) || (c =? 9) || (c =? 10) || (c =? 13))%N.

Definition is_digit (c : N) : bool := ((48 <=? c) && (c <=? 57))%N.

Definition digit_value (c : N) : Z := Z.of_N (c - 48).

Definition hex_value (c : N) : option N :=
  if ((48 <=? c) && (c <=? 57))%N then Some (c - 48)%N
  else if ((65 <=? c) && (c <=? 70))%N then Some (c - 55)%N
  else if ((97 <=? c) && (c <=? 102))%N then Some (c - 87)%N
  else None.

Definition fresh (negative : bool) (m : Z) : number :=
  {| neg := negative; mant := m; frac := 0; eneg := false; expo := 0 |}.

(** A character met between tokens. *)
Definition start_step (c : N) : option (lex_state * list token) :=
  if is_whitespace c then Some (LStart, [])
  else if (c =? 123)%N then Some (LStart, [TLBrace])
  else if (c =? 125)%N then Some (LStart, [TRBrace])
  else if (c =? 91)%N then Some (LStart, [TLBracket])
  else if (c =? 93)%N then Some (LStart, [TRBracket])
  else if (c =? 58)%N then Some (LStart, [TColon])
  else if (c =? 44)%N then Some (LStart, [TComma])
  else if (c =? 34)%N then Some (LString [], [])
  else if (c =? 45)%N then Some (LNumber NMinus (fresh true 0), [])
  else if (c =? 48)%N then Some (LNumber NZero (fresh false 0), [])
  else if is_digit c then Some (LNumber NInt (fresh false (digit_value c)), [])
  else if (c =? 116)%N then Some (LWord (str "rue") TTrue, [])
  else if (c =? 102)%N then Some (LWord (str "alse") TFalse, [])
  else if (c =? 110)%N then Some (LWord (str "ull") TNull, [])
  else None.

Definition escape_step (acc : jsstring) (c : N) : option lex_state :=
  if (c =? 34)%N then Some (LString (34%N :: acc))
  else if (c =? 92)%N then Some (LString (92%N :: acc))
  else if (c =? 47)%N then Some (LString (47%N :: acc))
  else if (c =? 98)%N then Some (LString (8%N :: acc))
  else if (c =? 102)%N then Some (LString (12%N :: acc))
  else if (c =? 110)%N then Some (LString (10%N :: acc))
  else if (c =? 114)%N then Some (LString (13%N :: acc))
  else if (c =? 116)%N then Some (LString (9%N :: acc))
  else if (c =? 117)%N then Some (LUnicode acc 3 0%N)
  else None.

Definition push_int (n : number) (c : N) : number :=
  {| neg := neg n; mant := mant n * 10 + digit_value c; frac := frac n;
     eneg := eneg n; expo := expo n |}.

Definition push_frac (n : number) (c : N) : number :=
  {| neg := neg n; mant := mant n * 10 + digit_value c; frac := frac n + 1;
     eneg := eneg n; expo := expo n |}.

Definition push_exp (n : number) (c : N) : number :=
  {| neg := neg n; mant := mant n; frac := frac n;
     eneg := eneg n; expo := expo n * 10 + digit_value c |}.

Definition set_eneg (n : number) (b : bool) : number :=
  {| neg := neg n; mant := mant n; frac := frac n; eneg := b;
     expo := expo n |}.

Definition is_e (c : N) : bool := ((c =? 101) || (c =? 69))%N.

(** The number is over at [c]: it is emitted and [c] is read afresh. *)
Definition end_number (n : number) (c : N) : option (lex_state * list token) :=
  '(st, toks) ← start_step c; Some (st, number_token n :: toks).

Definition number_step (ph : num_phase) (n : number) (c : N)
    : option (lex_state * list token) :=
  match ph with
  | NMinus =>
      if (c =? 48)%N then Some (LNumber NZero n, [])
      else if is_digit c then Some (LNumber NInt (push_int n c), [])
      else None
  | NZero =>
      if (c =? 46)%N then Some (LNumber NDot n, [])
      else if is_e c then Some (LNumber NExpStart n, [])
      else end_number n c
  | NInt =>
      if is_digit c then Some (LNumber NInt (push_int n c), [])
      else if (c =? 46)%N then Some (LNumber NDot n, [])
      else if is_e c then Some (LNumber NExpStart n, [])
      else end_number n c
  | NDot =>
      if is_digit c then Some (LNumber NFrac (push_frac n c), []) else None
  | NFrac =>
      if is_digit c then Some (LNumber NFrac (push_frac n c), [])
      else if is_e c then Some (LNumber NExpStart n, [])
      else end_number n c
  | NExpStart =>
      if (c =? 43)%N then Some (LNumber NExpSign n, [])
      else if (c =? 45)%N then Some (LNumber NExpSign (set_eneg n true), [])
      else if is_digit c then Some (LNumber NExp (push_exp n c), [])
      else None
  | NExpSign =>
      if is_digit c then Some (LNumber NExp (push_exp n c), []) else None
  | NExp =>
      if is_digit c then Some (LNumber NExp (push_exp n c), [])
      else end_number n c
  end.

Definition lex_step (st : lex_state) (c : N) : option (lex_state * list token) :=
  match st with
  | LStart => start_step c
  | LString acc =>
      if (c =? 34)%N then Some (LStart, [TString (reverse acc)])
      else if (c =? 92)%N then Some (LEscape acc, [])
      else if (c <? 32)%N then None
      else Some (LString (c :: acc), [])
  | LEscape acc => st' ← escape_step acc c; Some (st', [])
  | LUnicode acc more code =>
      h ← hex_value c;
      let code' := (code * 16 + h)%N in
      match more with
      | O => Some (LString (code' :: acc), [])
      | S k => Some (LUnicode acc k code', [])
      end
  | LWord rest tok =>
      match rest with
      | [] => None
      | r :: rs =>
          if (c =? r)%N then
            match rs with
            | [] => Some (LStart, [tok])
            | _ => Some (LWord rs tok, [])
            end
          else None
      end
  | LNumber ph n => number_step ph n c
  end.

(** The end of the text: only between tokens, or in a number that is
    complete as it stands. *)
Definition lex_end (st : lex_state) : option (list token) :=
  match st with
  | LStart => Some []
  | LNumber (NZero | NInt | NFrac | NExp) n => Some [number_token n]
  | _ => None
  end.

Fixpoint lex (st : lex_state) (input : jsstring) : option (list token) :=
  match input with
  | [] => lex_end st
  | c :: rest =>
      '(st', toks) ← lex_step st c;
      (toks ++.) <$> lex st' rest
  end.

(** A text of white space only, such as a line terminator on its own. *)
Definition blank (s : jsstring) : bool := forallb is_whitespace s.

(** *** Syntactic grammar *)

(** An array or object that is still open. *)
#[warnings="-register-all"] Inductive frame :=
  | FArray (acc : list Value)
  | FObject (acc : list (jsstring * Value)) (key : jsstring).

#[warnings="-register-all"] Inductive parse_state :=
  | PValue (stack : list frame)
  | PArrayFirst (stack : list frame)
  | PArrayNext (acc : list Value) (stack : list frame)
  | PObjectFirst (stack : list frame)
  | PObjectNext (acc : list (jsstring * Value)) (stack : list frame)
  | PKey (acc : list (jsstring * Value)) (stack : list frame)
  | PColon (acc : list (jsstring * Value)) (key : jsstring) (stack : list frame)
  | PDone (v : Value).

(** A value is complete: it goes into the innermost open container. *)
Definition complete (v : Value) (stack : list frame) : parse_state :=
  match stack with
  | [] => PDone v
  | FArray acc :: stack' => PArrayNext (v :: acc) stack'
  | FObject acc key :: stack' => PObjectNext ((key, v) :: acc) stack'
  end.

Definition value_step (stack : list frame) (t : token) : option parse_state :=
  match t with
  | TString s => Some (complete (Str s) stack)
  | TNumber m e => Some (complete (Number m e) stack)
  | TTrue => Some (complete (Bool true) stack)
  | TFalse => Some (complete (Bool false) stack)
  | TNull => Some (complete Null stack)
  | TLBracket => Some (PArrayFirst stack)
  | TLBrace => Some (PObjectFirst stack)
  | _ => None
  end.

Definition parse_step (st : parse_state) (t : token) : option parse_state :=
  match st, t with
  | PValue stack, _ => value_step stack t
  | PArrayFirst stack, TRBracket => Some (complete (Array []) stack)
  | PArrayFirst stack, _ => value_step (FArray [] :: stack) t
  | PArrayNext acc stack, TComma => Some (PValue (FArray acc :: stack))
  | PArrayNext acc stack, TRBracket =>
      Some (complete (Array (reverse acc)) stack)
  | PObjectFirst stack, TRBrace => Some (complete (Object []) stack)
  | PObjectFirst stack, TString k => Some (PColon [] k stack)
  | PObjectNext acc stack, TComma => Some (PKey acc stack)
  | PObjectNext acc stack, TRBrace =>
      Some (complete (Object (reverse acc)) stack)
  | PKey acc stack, TString k => Some (PColon acc k stack)
  | PColon acc k stack, TColon => Some (PValue (FObject acc k :: stack))
  | _, _ => None
  end.

Fixpoint parse (st : parse_state) (ts : list token) : option Value :=
  match ts with
  | [] => match st with PDone v => Some v | _ => None end
  | t :: rest => st' ← parse_step st t; parse st' rest
  end.

(** [JSON.parse(text)]; [None] is its [SyntaxError]. *)
Definition JSON_parse (input : jsstring) : option Value :=
  lex LStart input ≫= parse (PValue []).

End JS.


(** ** [Client]: login, book creation and the two stream consumers *)
Module Client.
Import JS.

(** A tweet as the manager hands it out: its identifier and the members of
    its payload. *)
Record Tweet := {
  id : Value;
  fields : list (jsstring * Value);
}.

(** The manager's cache, a [Collection] keyed by kind and identifier. *)
Definition Cache := list ((jsstring * Value) * Tweet).

Definition same_key (a b : jsstring * Value) : bool :=
  bool_decide (a.1 = b.1) && sameValueZero a.2 b.2.

Definition members_of (v : Value) : list (jsstring * Value) :=
  match v with
  | Object ms => ms
  | _ => []
  end.

Definition member_or_undefined (v : Value) (k : string) : Value :=
  default Undefined (member (members_of v) (str k)).

(** Modelled from the spec: [EntityStore.upsert], missing from the sources.
    Inserts the object under (kind, identifier) or merges it into the cached
    one; the members of the new payload come after the cached ones, so that a
    member present in the new payload overwrites and one absent from it is
    kept. *)
Definition upsert (c : Cache) (kind : jsstring) (rid : Value) (raw : Value)
    : Cache * Tweet :=
  let old := default [] (fields <$> Collection.get same_key c (kind, rid)) in
  let e := {| id := rid; fields := old ++ members_of raw |} in
  (Collection.set same_key c (kind, rid) e, e).

(** The objects of one kind in the side-table. *)
Definition upsert_kind (c : Cache) (entry : jsstring * Value) : Cache :=
  match entry.2 with
  | Array objects =>
      foldl (λ acc o, (upsert acc entry.1 (member_or_undefined o "id") o).1)
            c objects
  | _ => c
  end.

(** Modelled from the spec: [TweetManager._add(id, data, flag)], missing from
    the sources ([EntityStore.upsertEnvelope]). Every object of the
    envelope's [includes] side-table is upserted first, then the primary
    object under the identifier given, which is returned. The specification
    is silent on the third argument. *)
Definition _add (c : Cache) (rid : Value) (rawData : Value) (flag : bool)
    : Cache * Tweet :=
  let side := members_of (member_or_undefined rawData "includes") in
  upsert (foldl upsert_kind c side) (str "tweet") rid
         (member_or_undefined rawData "data").

(** Modelled from the spec: [MatchingRule], missing from the sources. A rule
    resolved to its descriptive metadata: identifier and tag. *)
Record MatchingRule := {
  rule_id : Value;
  rule_tag : Value;
}.

Definition MatchingRule_new (rule : Value) : MatchingRule :=
  {| rule_id := member_or_undefined rule "id";
     rule_tag := member_or_undefined rule "tag" |}.

(** [ClientEvents] with the arguments of each emission. *)
Inductive Event :=
  | READY
  | FILTERED_TWEET_CREATE (tweet : Tweet)
      (matchingRules : list (Value * MatchingRule))
  | SAMPLED_TWEET_CREATE (tweet : Tweet).

(** The query of either stream endpoint. *)
Record StreamQuery := {
  s_expansions : option (list string);
  s_media_fields : option (list string);
  s_place_fields : option (list string);
  s_poll_fields : option (list string);
  s_tweet_fields : option (list string);
  s_user_fields : option (list string);
}.

(** A streaming request handed to the transport. *)
Inductive Request :=
  | FilteredStream (q : StreamQuery)
  | SampledStream (q : StreamQuery).

Record Client := {
  token : option jsstring;
  readyAt : option Z;
  events : list string;
  queryParameters : option Books.QueryParameters;
  tweets : Cache;
  emitted : list Event;
  opened : list Request;
}.

(** [new Client(options)] *)
Definition new (events : list string)
    (queryParameters : option Books.QueryParameters) : Client :=
  {| token := None; readyAt := None; events := events;
     queryParameters := queryParameters; tweets := [];
     emitted := []; opened := [] |}.

Definition set_login (t : jsstring) (now : Z) (c : Client) : Client :=
  {| token := Some t; readyAt := Some now; events := events c;
     queryParameters := queryParameters c; tweets := tweets c;
     emitted := emitted c; opened := opened c |}.

Definition set_tweets (s : Cache) (c : Client) : Client :=
  {| token := token c; readyAt := readyAt c; events := events c;
     queryParameters := queryParameters c; tweets := s;
     emitted := emitted c; opened := opened c |}.

(** [this.emit(event, ...)] *)
Definition emit (e : Event) (c : Client) : Client :=
  {| token := token c; readyAt := readyAt c; events := events c;
     queryParameters := queryParameters c; tweets := tweets c;
     emitted := emitted c ++ [e]; opened := opened c |}.

Definition open_stream (r : Request) (c : Client) : Client :=
  {| token := token c; readyAt := readyAt c; events := events c;
     queryParameters := queryParameters c; tweets := tweets c;
     emitted := emitted c; opened := opened c ++ [r] |}.

Definition stream_query (c : Client) : StreamQuery :=
  let qp := queryParameters c in
  {| s_expansions := qp ≫= Books.tweetExpansions;
     s_media_fields := qp ≫= Books.mediaFields;
     s_place_fields := qp ≫= Books.placeFields;
     s_poll_fields := qp ≫= Books.pollFields;
     s_tweet_fields := qp ≫= Books.tweetFields;
     s_user_fields := qp ≫= Books.userFields |}.

(** [#connectToFilteredStream()] up to its first [await]: the request is
    built and handed to the transport. The caller does not wait for more. *)
Definition connectToFilteredStream (c : Client) : Client :=
  open_stream (FilteredStream (stream_query c)) c.

(** [#connectToSampledStream()] up to its first [await]. *)
Definition connectToSampledStream (c : Client) : Client :=
  open_stream (SampledStream (stream_query c)) c.

(** The code units of a value that is a string. *)
Definition string_of (v : Value) : jsstring :=
  match v with
  | Str t => t
  | _ => []
  end.

(** [loginWithBearerToken(token)], called at time [now] with whatever value
    the caller passed. *)
Definition loginWithBearerToken (c : Client) (now : Z) (tok : Value)
    : Client * (Exception + jsstring) :=
  if negb (bool_decide (typeof tok = "string")) then
    (c, inl (CustomTypeError "INVALID_TYPE" "token" "string" false))
  else
    let c1 := emit READY (set_login (string_of tok) now c) in
    let c2 := if bool_decide ("FILTERED_TWEET_CREATE" ∈ events c1)
              then connectToFilteredStream c1 else c1 in
    let c3 := if bool_decide ("SAMPLED_TWEET_CREATE" ∈ events c2)
              then connectToSampledStream c2 else c2 in
    (c3, inr (string_of tok)).

(** [createBook(bookName, options)] at [bookName = 'SearchTweetsBook'], the
    one entry of [Books] whose class is in the sources: the constructor runs
    on the options as they are. Reading a property of [options] throws a
    [TypeError] when the caller passed none. *)
Definition createBook (c : Client)
    (options : option Books.SearchTweetsBookOptions)
    : Client * (Exception + Books.SearchTweetsBook) :=
  match options with
  | None => (c, inl TypeError)
  | Some o => (c, inr (Books.new o))
  end.

(** The callback of [rawData.matching_rules.reduce]. *)
Fixpoint reduce_rules (col : list (Value * MatchingRule)) (rules : list Value)
    : Exception + list (Value * MatchingRule) :=
  match rules with
  | [] => inr col
  | rule :: rest =>
      match get rule (str "id") with
      | inl e => inl e
      | inr rid =>
          reduce_rules (Collection.set sameValueZero col rid
                          (MatchingRule_new rule)) rest
      end
  end.

(** [rawData.data.id] *)
Definition data_id (rawData : Value) : Exception + Value :=
  match get rawData (str "data") with
  | inl e => inl e
  | inr d => get d (str "id")
  end.

(** The ['data'] listener of the filtered stream. Whatever is thrown inside
    the [try] is caught and dropped; what was done before stays done. *)
Definition filtered_on_data (c : Client) (chunk : jsstring) : Client :=
  match JSON_parse chunk with
  | None => c
  | Some rawData =>
      match data_id rawData with
      | inl _ => c
      | inr rid =>
          let '(cache, tweet) := _add (tweets c) rid rawData false in
          let c1 := set_tweets cache c in
          match member_or_undefined rawData "matching_rules" with
          | Array rules =>
              match reduce_rules [] rules with
              | inl _ => c1
              | inr matchingRules =>
                  emit (FILTERED_TWEET_CREATE tweet matchingRules) c1
              end
          | _ => c1
          end
      end
  end.

(** The ['data'] listener of the sampled stream. *)
Definition sampled_on_data (c : Client) (chunk : jsstring) : Client :=
  match JSON_parse chunk with
  | None => c
  | Some rawTweet =>
      match data_id rawTweet with
      | inl _ => c
      | inr rid =>
          let '(cache, tweet) := _add (tweets c) rid rawTweet false in
          emit (SAMPLED_TWEET_CREATE tweet) (set_tweets cache c)
      end
  end.

Inductive Stream := Filtered | Sampled.

Definition on_data (k : Stream) : Client → jsstring → Client :=
  match k with
  | Filtered => filtered_on_data
  | Sampled => sampled_on_data
  end.

(** A connection: the listener runs once on every chunk the transport
    delivers, in order. *)
Definition consume (k : Stream) (c : Client) (chunks : list jsstring) : Client :=
  foldl (on_data k) c chunks.

(** The scenario of the specification, as it is written: the quote that
    closes the identifier ends the first chunk and begins the second. *)
Definition record_head : jsstring := text "{'data':{'id':'1'".
Definition record_tail : jsstring := text "'}}" ++ [10%N].

(** The same record cut before that quote, so that the two chunks join to the
    record and its line terminator. *)
Definition record_cut : jsstring := text "{'data':{'id':'1".

(** A record that arrives as the two chunks [head] and [tail] produces one
    event. *)
Definition split_record_emits_once (k : Stream) (head tail : jsstring) : Prop :=
  ∀ c, length (emitted (consume k c [head; tail])) = S (length (emitted c)).

(** [createBook] rejects options that lack the query. *)
Definition createBook_requires_query : Prop :=
  ∀ c options, Books.opt_query options = None →
    ∃ e, (createBook c (Some options)).2 = inl e.

End Client.

(** ** Sample books, responses and transports *)
Module Samples.
Import TweetManager Books.

Definition no_options : SearchTweetsBookOptions :=
  {| opt_query := None; opt_afterTweetId := None; opt_beforeTweetId := None;
     opt_afterTimestamp := None; opt_beforeTimestamp := None;
     opt_maxResultsPerPage := None |}.

(** [{ query: 'rust', maxResultsPerPage: 10 }] *)
Definition rust_options : SearchTweetsBookOptions :=
  {| opt_query := Some "rust"; opt_afterTweetId := None;
     opt_beforeTweetId := None; opt_afterTimestamp := None;
     opt_beforeTimestamp := None; opt_maxResultsPerPage := Some 10 |}.

(** [{ query: 'rust', afterTweetId: '100', beforeTweetId: '200' }] *)
Definition range_options : SearchTweetsBookOptions :=
  {| opt_query := Some "rust"; opt_afterTweetId := Some "100";
     opt_beforeTweetId := Some "200"; opt_afterTimestamp := None;
     opt_beforeTimestamp := None; opt_maxResultsPerPage := None |}.

(** [{ query: 'rust', afterTimestamp: 0 }]: everything since the epoch. *)
Definition epoch_options : SearchTweetsBookOptions :=
  {| opt_query := Some "rust"; opt_afterTweetId := None;
     opt_beforeTweetId := None; opt_afterTimestamp := Some 0;
     opt_beforeTimestamp := None; opt_maxResultsPerPage := None |}.

Definition plain_client : Client :=
  {| queryParameters := None; tweets := ∅ |}.

Definition tweet (i text : string) : RawObject :=
  {| raw_id := i; raw_fields := {[ "text" := text ]} |}.

(** Three tweets and a token for the page after them. *)
Definition first_page : GetTweetSearchResponse :=
  {| data := Some [tweet "3" "c"; tweet "2" "b"; tweet "1" "a"];
     includes := None;
     meta := {| next_token := Some "b26v89c19zqg8o3f"; result_count := 3 |} |}.

(** No result and no token. *)
Definition empty_last_page : GetTweetSearchResponse :=
  {| data := None; includes := None;
     meta := {| next_token := None; result_count := 0 |} |}.

(** A page whose token is the empty string. *)
Definition blank_token_page : GetTweetSearchResponse :=
  {| data := None; includes := None;
     meta := {| next_token := Some ""; result_count := 0 |} |}.

Definition answers (resp : GetTweetSearchResponse) : Transport :=
  λ _, inr resp.

Definition unreachable : Transport := λ _, inl "ECONNRESET".

(** A record of the filtered stream, what it decodes to, and a record that
    was cut short. *)
Definition matched_record : JS.jsstring :=
  JS.text "{'data':{'id':'1'},'matching_rules':[{'id':'7','tag':'cats'}]}".

Definition matched_value : JS.Value :=
  JS.Object
    [(JS.str "data", JS.Object [(JS.str "id", JS.Str (JS.str "1"))]);
     (JS.str "matching_rules",
      JS.Array [JS.Object [(JS.str "id", JS.Str (JS.str "7"));
                           (JS.str "tag", JS.Str (JS.str "cats"))]])].

Definition broken_record : JS.jsstring := JS.text "{'data':{'id':".

End Samples.

(** ** More sample books and responses *)
Module MoreSamples.
Import TweetManager Books.

(** [{ query: 'rust', afterTimestamp: 9e15 }]: a start beyond the last
    instant a [Date] can hold. *)
Definition far_future_options : SearchTweetsBookOptions :=
  {| opt_query := Some "rust"; opt_afterTweetId := None;
     opt_beforeTweetId := None; opt_afterTimestamp := Some 9000000000000000;
     opt_beforeTimestamp := None; opt_maxResultsPerPage := None |}.

(** A page that reports two results and carries none. *)
Definition page_without_data : GetTweetSearchResponse :=
  {| data := None; includes := None;
     meta := {| next_token := Some "7140dibdnow9c7btw3w29n";
                result_count := 2 |} |}.

(** A page in which one tweet comes twice. *)
Definition page_with_repeat : GetTweetSearchResponse :=
  {| data := Some [Samples.tweet "3" "c"; Samples.tweet "2" "b";
                   Samples.tweet "3" "c again"];
     includes := None;
     meta := {| next_token := None; result_count := 3 |} |}.

End MoreSamples.

(** ** Invariants of a book *)
Module BookInvariants.
Import Books.

(** What [hasMore = false] tells about a book: the first request was made and
    no token is stored. *)
Definition hasMore_sound (b : SearchTweetsBook) : Prop :=
  hasMore b = false →
  hasMadeInitialRequest b = true ∧ truthy_string (nextToken b) = false.

End BookInvariants.

(** ** [SearchTweetsBook] in the revision that extends [BaseRangeBook] *)
Module RangeBook.
Import TweetManager.

(** The fields the methods read and write. All but [query] are declared by
    [BaseRangeBook], which is not in the sources; they are taken with the
    types the methods use them at. *)
Record SearchTweetsBook := {
  _nextToken : option string;
  _hasMadeInitialRequest : bool;
  hasMore : bool;
  maxResultsPerPage : option Z;
  afterTweetId : option Snowflake;
  beforeTweetId : option Snowflake;
  startTimestamp : option Z;
  endTimestamp : option Z;
  query : option string;
}.

Definition set__hasMadeInitialRequest (v : bool) (b : SearchTweetsBook) :=
  {| _nextToken := _nextToken b; _hasMadeInitialRequest := v;
     hasMore := hasMore b; maxResultsPerPage := maxResultsPerPage b;
     afterTweetId := afterTweetId b; beforeTweetId := beforeTweetId b;
     startTimestamp := startTimestamp b; endTimestamp := endTimestamp b;
     query := query b |}.

(** [this._nextToken = t; this.hasMore = t ? true : false] *)
Definition set_cursor (t : option string) (b : SearchTweetsBook) :=
  {| _nextToken := t; _hasMadeInitialRequest := _hasMadeInitialRequest b;
     hasMore := truthy_string t; maxResultsPerPage := maxResultsPerPage b;
     afterTweetId := afterTweetId b; beforeTweetId := beforeTweetId b;
     startTimestamp := startTimestamp b; endTimestamp := endTimestamp b;
     query := query b |}.

Record Outcome := {
  book : SearchTweetsBook;
  client : Books.Client;
  requests : list Books.GetTweetSearchQuery;
  result : Exception + list (Snowflake * Entity);
}.

(** The first part of [#fetchPages], up to the request. *)
Definition build_query (b : SearchTweetsBook) (c : Books.Client)
    (token : option string) : option Books.GetTweetSearchQuery :=
  let queryParameters := Books.queryParameters c in
  let query :=
    {| Books.q_expansions := queryParameters ≫= Books.tweetExpansions;
       Books.q_tweet_fields := queryParameters ≫= Books.tweetFields;
       Books.q_user_fields := queryParameters ≫= Books.userFields;
       Books.q_media_fields := queryParameters ≫= Books.mediaFields;
       Books.q_place_fields := queryParameters ≫= Books.placeFields;
       Books.q_poll_fields := queryParameters ≫= Books.pollFields;
       Books.q_query := query b;
       Books.q_next_token := token;
       Books.q_since_id := None; Books.q_until_id := None;
       Books.q_max_results := None;
       Books.q_start_time := None; Books.q_end_time := None |} in
  let query := if truthy_string (afterTweetId b)
               then Books.set_since_id (afterTweetId b) query else query in
  let query := if truthy_string (beforeTweetId b)
               then Books.set_until_id (beforeTweetId b) query else query in
  let query := if truthy_number (maxResultsPerPage b)
               then Books.set_max_results (maxResultsPerPage b) query
               else query in
  query ← (if truthy_number (startTimestamp b)
           then iso ← startTimestamp b ≫= Date.toISOString;
                Some (Books.set_start_time (Some iso) query)
           else Some query);
  query ← (if truthy_number (endTimestamp b)
           then iso ← endTimestamp b ≫= Date.toISOString;
                Some (Books.set_end_time (Some iso) query)
           else Some query);
  Some query.

(** The [for ... of] loop; [_add] is the manager's [add] under its later
    name, called with the same two arguments. As in [Books.collect] the loop
    runs to its end. *)
Fixpoint collect (s : Store) (col : list (Snowflake * Entity))
    (raws : list RawObject) (inc : option Includes)
    : Store * list (Snowflake * Entity) :=
  match raws with
  | [] => (s, col)
  | rawTweet :: rest =>
      let '(s', tweet) := add s (raw_id rawTweet) rawTweet inc in
      collect s' (Collection.set same_id col (id tweet) tweet) rest inc
  end.

(** [#fetchPages(token?)] *)
Definition fetchPages (b : SearchTweetsBook) (c : Books.Client)
    (api : Books.Transport) (token : option string) : Outcome :=
  match build_query b c token with
  | None =>
      {| book := b; client := c; requests := []; result := inl RangeError |}
  | Some q =>
      match api q with
      | inl reason =>
          {| book := b; client := c; requests := [q];
             result := inl (TransportFailure reason) |}
      | inr resp =>
          let b' := set_cursor (Books.next_token (Books.meta resp)) b in
          if Books.result_count (Books.meta resp) =? 0 then
            {| book := b'; client := c; requests := [q]; result := inr [] |}
          else
            match Books.data resp with
            | None =>
                {| book := b'; client := c; requests := [q];
                   result := inl TypeError |}
            | Some rawTweets =>
                let '(s, col) :=
                  collect (Books.tweets c) [] rawTweets (Books.includes resp) in
                {| book := b'; client := Books.set_store s c; requests := [q];
                   result := inr col |}
            end
      end
  end.

(** [fetchNextPage()] *)
Definition fetchNextPage (b : SearchTweetsBook) (c : Books.Client)
    (api : Books.Transport) : Outcome :=
  if negb (_hasMadeInitialRequest b) then
    fetchPages (set__hasMadeInitialRequest true b) c api None
  else if negb (truthy_string (_nextToken b)) then
    {| book := b; client := c; requests := [];
       result := inl (CustomError "PAGINATED_RESPONSE_TAIL_REACHED") |}
  else fetchPages b c api (_nextToken b).

Fixpoint run (b : SearchTweetsBook) (c : Books.Client)
    (apis : list Books.Transport) : list Outcome :=
  match apis with
  | [] => []
  | api :: rest =>
      let o := fetchNextPage b c api in
      o :: run (book o) (client o) rest
  end.

(** The book of the other revision that has the same content, field by
    field. *)
Definition to_BaseBook (b : SearchTweetsBook) : Books.SearchTweetsBook :=
  {| Books.nextToken := _nextToken b;
     Books.hasMadeInitialRequest := _hasMadeInitialRequest b;
     Books.maxResultsPerPage := maxResultsPerPage b;
     Books.hasMore := hasMore b;
     Books.query := query b;
     Books.afterTweetId := afterTweetId b;
     Books.beforeTweetId := beforeTweetId b;
     Books.afterTimestamp := startTimestamp b;
     Books.beforeTimestamp := endTimestamp b |}.

Definition to_BaseOutcome (o : Outcome) : Books.Outcome :=
  {| Books.book := to_BaseBook (book o); Books.client := client o;
     Books.requests := requests o; Books.result := result o |}.

End RangeBook.

(** ** What makes a stream record deliverable *)
Module StreamRecords.
Import JS Client.

Definition is_nullish (v : Value) : bool :=
  match v with
  | Undefined | Null => true
  | _ => false
  end.

(** The value is an object with a [data] member that is not [null]. *)
Definition has_data (v : Value) : bool :=
  match v with
  | Object ms => negb (is_nullish (default Undefined (member ms (str "data"))))
  | _ => false
  end.

(** The value has a [matching_rules] member that is an array without a
    [null] in it. *)
Definition has_rules (v : Value) : bool :=
  match member_or_undefined v "matching_rules" with
  | Array rules => forallb (λ rule, negb (is_nullish rule)) rules
  | _ => false
  end.

(** Whether a chunk, taken by itself, makes the listener of a stream emit. *)
Definition delivers (k : Stream) (chunk : jsstring) : bool :=
  match JSON_parse chunk with
  | Some v =>
      has_data v && match k with Sampled => true | Filtered => has_rules v end
  | None => false
  end.


(** [{"errors":[{"title":"operational-disconnect"}]}]: what the API sends
    when it closes a stream. *)
Definition disconnect_notice : jsstring :=
  text "{'errors':[{'title':'operational-disconnect'}]}".

(** A record of the sampled stream: a tweet and nothing else. *)
Definition plain_record : jsstring := text "{'data':{'id':'1','text':'hi'}}".

End StreamRecords.

(** ** Sessions: what a login asks of the transport *)
Module Sessions.
Import JS Client.

(** The streams a client subscribes to, in the order login requests them. *)
Definition subscriptions (c : Client) : list Request :=
  (if bool_decide ("FILTERED_TWEET_CREATE" ∈ events c)
   then [FilteredStream (stream_query c)] else [])
  ++ (if bool_decide ("SAMPLED_TWEET_CREATE" ∈ events c)
      then [SampledStream (stream_query c)] else []).

(** The client after the steps of a login that follow its guard: [READY],
    then the streams. *)
Definition connected (c : Client) : Client :=
  let c1 := emit READY c in
  let c2 := if bool_decide ("FILTERED_TWEET_CREATE" ∈ events c1)
            then connectToFilteredStream c1 else c1 in
  if bool_decide ("SAMPLED_TWEET_CREATE" ∈ events c2)
  then connectToSampledStream c2 else c2.

(** The key under which a matching rule is stored: its [id]. *)
Definition rule_key (rule : Value) : Value := member_or_undefined rule "id".

End Sessions.

(** ** [Client.login]: user-context login *)
Module UserContext.
Import JS Client.

(** [GETUsersMeQuery] *)
Record MeQuery := {
  me_expansions : option (list string);
  me_tweet_fields : option (list string);
  me_user_fields : option (list string);
}.

(** [new RequestData({ query, isUserContext: true })] *)
Record MeRequest := {
  me_query : MeQuery;
  isUserContext : bool;
}.

(** [client._api.users.me.get]: one awaited request, which resolves with the
    decoded response or rejects. *)
Definition UsersMe := MeRequest → string + Value.

Section Login.

(** [ClientCredentials] and [ClientUser] are not in the sources. Their
    constructors are parameters: each returns the object or throws. *)
Context {ClientCredentials ClientUser : Type}.
Context (ClientCredentials_new : Value → Exception + ClientCredentials).
Context (bearerToken : ClientCredentials → jsstring).
Context (ClientUser_new : Client → Value → Exception + ClientUser).

(** The client with the two fields that only a user-context login sets, and
    the requests made to [users/me]. *)
Record Session := {
  client : Client;
  credentials : option ClientCredentials;
  me : option ClientUser;
  asked : list MeRequest;
}.

Definition set_client (c : Client) (s : Session) : Session :=
  {| client := c; credentials := credentials s; me := me s;
     asked := asked s |}.

Definition set_credentials (cc : ClientCredentials) (s : Session) : Session :=
  {| client := client s; credentials := Some cc; me := me s;
     asked := asked s |}.

Definition set_me (u : ClientUser) (s : Session) : Session :=
  {| client := client s; credentials := credentials s; me := Some u;
     asked := asked s |}.

Definition ask (r : MeRequest) (s : Session) : Session :=
  {| client := client s; credentials := credentials s; me := me s;
     asked := asked s ++ [r] |}.

Definition me_request (c : Client) : MeRequest :=
  let queryParameters := queryParameters c in
  {| me_query :=
       {| me_expansions := queryParameters ≫= Books.userExpansions;
          me_tweet_fields := queryParameters ≫= Books.tweetFields;
          me_user_fields := queryParameters ≫= Books.userFields |};
     isUserContext := true |}.

(** [#fetchClientUser()] *)
Definition fetchClientUser (s : Session) (users_me : UsersMe)
    : Session * (Exception + ClientUser) :=
  let requestData := me_request (client s) in
  let s1 := ask requestData s in
  match users_me requestData with
  | inl reason => (s1, inl (TransportFailure reason))
  | inr data => (s1, ClientUser_new (client s) data)
  end.

(** [login(credentials)], called at time [now] with whatever value the caller
    passed. The test [!this.me] that follows the request is on an object that
    [new] has just made, which is never falsy; its branch is left out. *)
Definition login (s : Session) (now : Z) (cred : Value) (users_me : UsersMe)
    : Session * (Exception + ClientCredentials) :=
  if negb (bool_decide (typeof cred = "object")) then
    (s, inl (CustomTypeError "INVALID_TYPE" "credentials" "object" true))
  else
    match ClientCredentials_new cred with
    | inl e => (s, inl e)
    | inr cc =>
        let s1 := set_client (set_login (bearerToken cc) now (client s))
                    (set_credentials cc s) in
        match fetchClientUser s1 users_me with
        | (s2, inl e) => (s2, inl e)
        | (s2, inr user) =>
            let s3 := set_me user s2 in
            let c1 := emit READY (client s3) in
            let c2 := if bool_decide ("FILTERED_TWEET_CREATE" ∈ events c1)
                      then connectToFilteredStream c1 else c1 in
            let c3 := if bool_decide ("SAMPLED_TWEET_CREATE" ∈ events c2)
                      then connectToSampledStream c2 else c2 in
            (set_client c3 s3, inr cc)
        end
    end.

End Login.

(** Modelled from the spec: credentials reduced to the bearer token they
    hold, which must be a string, and the user reduced to the decoded
    response. They stand for the two missing classes in the examples. *)
Definition sample_credentials (cred : Value) : Exception + jsstring :=
  match member_or_undefined cred "bearerToken" with
  | Str t => inr t
  | _ => inl (CustomError "CREDENTIALS_NOT_STRING")
  end.

Definition sample_user (c : Client) (data : Value) : Exception + Value :=
  inr data.

Definition sample_session (events : list string) : @Session jsstring Value :=
  {| client := new events None; credentials := None; me := None;
     asked := [] |}.

Definition sample_login :=
  login sample_credentials (λ t, t) sample_user.

End UserContext.

(** * The platform models on known values *)
Module PlatformExamples.
Import JS.

Example toISOString_epoch :
  Date.toISOString 0 = Some "1970-01-01T00:00:00.000Z".
Proof. reflexivity. Qed.

Example toISOString_before_epoch :
  Date.toISOString (-1) = Some "1969-12-31T23:59:59.999Z".
Proof. reflexivity. Qed.

Example toISOString_leap_day :
  Date.toISOString 951782400000 = Some "2000-02-29T00:00:00.000Z".
Proof. reflexivity. Qed.

Example toISOString_recent :
  Date.toISOString 1644883200000 = Some "2022-02-15T00:00:00.000Z".
Proof. reflexivity. Qed.

Example toISOString_last_instant :
  Date.toISOString 8640000000000000 = Some "+275760-09-13T00:00:00.000Z".
Proof. reflexivity. Qed.

Example toISOString_first_instant :
  Date.toISOString (-8640000000000000) = Some "-271821-04-20T00:00:00.000Z".
Proof. reflexivity. Qed.

Example toISOString_out_of_range :
  Date.toISOString 8640000000000001 = None.
Proof. reflexivity. Qed.

Example JSON_parse_record :
  JSON_parse (text "{'data':{'id':'1'}}")
  = Some (Object [(str "data", Object [(str "id", Str (str "1"))])]).
Proof. reflexivity. Qed.

Example JSON_parse_values :
  JSON_parse (text " [1, -2.50e+3, true, false, null, 'a\nA', {}, []] ")
  = Some (Array [Number 1 0; Number (-250) 1; Bool true; Bool false; Null;
                 Str [97; 10; 65]%N; Object []; Array []]).
Proof. reflexivity. Qed.

Example JSON_parse_rejects :
  Forall (λ s, JSON_parse (text s) = None)
    [""; " "; "{"; "[1,]"; "{'a':1,}"; "{'a' 1}"; "[1 2]"; "01"; "1."; "-";
     ".5"; "1e"; "tru"; "nul"; "truefalse"; "'abc"; "'\x'"; "'\u12'";
     "{'a':1}}"; "]"; "{1:2}"; "undefined"; "NaN"].
Proof. repeat constructor. Qed.

Example matched_record_decodes :
  JSON_parse Samples.matched_record = Some Samples.matched_value.
Proof. reflexivity. Qed.

End PlatformExamples.

(** * Properties of [SearchTweetsBook] *)
Module BooksTheory.
Import TweetManager Books Samples.

(** ** How one call moves the book *)

Lemma set_hasMadeInitialRequest_id b :
  hasMadeInitialRequest b = true → set_hasMadeInitialRequest true b = b.
Proof. destruct b; simpl; intros ->; reflexivity. Qed.

(** The requests of [fetchPages] are the query it built, if it built one. *)
Lemma fetchPages_requests b c api token :
  requests (fetchPages b c api token) = option_list (build_query b c token).
Proof.
  unfold fetchPages.
  destruct (build_query b c token) as [q|]; [|reflexivity].
  destruct (api q) as [reason|resp]; [reflexivity|].
  destruct (result_count (meta resp) =? 0); [reflexivity|].
  destruct (data resp) as [raws|]; [|reflexivity].
  destruct (collect (tweets c) [] raws (includes resp)); reflexivity.
Qed.

(** What [fetchPages] does once the transport has answered. *)
Lemma fetchPages_answered b c api token q resp :
  build_query b c token = Some q → api q = inr resp →
  book (fetchPages b c api token) = set_cursor (next_token (meta resp)) b ∧
  result (fetchPages b c api token)
  = (if result_count (meta resp) =? 0 then inr []
     else match data resp with
          | None => inl TypeError
          | Some raws =>
              inr (collect (tweets c) [] raws (includes resp)).2
          end).
Proof.
  intros Hq Hresp. unfold fetchPages. rewrite Hq, Hresp.
  destruct (result_count (meta resp) =? 0); [done|].
  destruct (data resp) as [raws|]; [|done].
  destruct (collect (tweets c) [] raws (includes resp)); done.
Qed.

(** What [fetchPages] does when the transport rejects the request. *)
Lemma fetchPages_rejected b c api token q reason :
  build_query b c token = Some q → api q = inl reason →
  fetchPages b c api token
  = {| book := b; client := c; requests := [q];
       result := inl (TransportFailure reason) |}.
Proof. intros Hq Hres. unfold fetchPages. by rewrite Hq, Hres. Qed.

Lemma fetchNextPage_requests b c api q :
  requests (fetchNextPage b c api) = [q] →
  build_query (sending b).1 c (sending b).2 = Some q ∧
  fetchNextPage b c api = fetchPages (sending b).1 c api (sending b).2.
Proof.
  unfold fetchNextPage, sending.
  destruct (negb (hasMadeInitialRequest b)); simpl.
  - rewrite fetchPages_requests.
    destruct (build_query _ c None); simpl; intros; simplify_eq; done.
  - destruct (negb (truthy_string (nextToken b))); simpl; [done|].
    rewrite fetchPages_requests.
    destruct (build_query b c _); simpl; intros; simplify_eq; done.
Qed.

Lemma fetched_book b c api resp :
  fetched b c api resp →
  book (fetchNextPage b c api)
  = set_cursor (next_token (meta resp)) (set_hasMadeInitialRequest true b).
Proof.
  intros (q & Hreq & Hresp).
  destruct (fetchNextPage_requests _ _ _ _ Hreq) as [Hq ->].
  destruct (fetchPages_answered _ _ _ _ _ _ Hq Hresp) as [-> _].
  unfold sending. destruct (hasMadeInitialRequest b) eqn:E; simpl; [|done].
  by rewrite set_hasMadeInitialRequest_id.
Qed.

Lemma fetched_result b c api resp :
  fetched b c api resp →
  result (fetchNextPage b c api)
  = (if result_count (meta resp) =? 0 then inr []
     else match data resp with
          | None => inl TypeError
          | Some raws =>
              inr (collect (tweets c) [] raws (includes resp)).2
          end).
Proof.
  intros (q & Hreq & Hresp).
  destruct (fetchNextPage_requests _ _ _ _ Hreq) as [Hq ->].
  destruct (fetchPages_answered _ _ _ _ _ _ Hq Hresp) as [_ ->].
  unfold sending. by destruct (negb (hasMadeInitialRequest b)).
Qed.

(** ** The guard *)

Lemma fetchNextPage_guard b c api :
  cursor_state b = Exhausted → fetchNextPage b c api = tail_reached b c.
Proof.
  unfold cursor_state, fetchNextPage, tail_reached.
  destruct (negb (hasMadeInitialRequest b)); [done|].
  destruct (truthy_string (nextToken b)); done.
Qed.

Lemma run_exhausted b c apis :
  cursor_state b = Exhausted →
  run b c apis = replicate (length apis) (tail_reached b c).
Proof.
  intros He. induction apis as [|api rest IH]; simpl; [done|].
  rewrite fetchNextPage_guard by done. simpl. by rewrite IH.
Qed.

(** C1. On a book whose cursor is exhausted (a first request was made and no
    token is stored) [fetchNextPage] rejects with
    [PAGINATED_RESPONSE_TAIL_REACHED] without handing anything to the
    transport and without changing the book; so does every later call, however
    many follow and whatever the transport would have answered. *)
Theorem exhausted_book_keeps_failing b c :
  hasMadeInitialRequest b = true → nextToken b = None →
  (∀ api, fetchNextPage b c api = tail_reached b c) ∧
  (∀ apis, run b c apis = replicate (length apis) (tail_reached b c)).
Proof.
  intros Hdone Htok.
  assert (cursor_state b = Exhausted) as He
    by (unfold cursor_state; rewrite Hdone, Htok; done).
  split; [intros; by apply fetchNextPage_guard | intros; by apply run_exhausted].
Qed.

(** The book left by an empty last page, called three more times. *)
Lemma exhausted_book_keeps_failing_witness :
  let b := book (fetchNextPage (new rust_options) plain_client
                   (answers empty_last_page)) in
  hasMadeInitialRequest b = true ∧ nextToken b = None ∧
  run b plain_client [answers first_page; unreachable; answers first_page]
  = replicate 3 (tail_reached b plain_client).
Proof.
  split; [reflexivity|]. split; [reflexivity|].
  apply (exhausted_book_keeps_failing _ plain_client); reflexivity.
Defined.

(** ** A request the transport rejects *)

(** After the first request, a rejected request leaves the whole book as it
    was. *)
Lemma failed_later_fetch_keeps_book b c api :
  hasMadeInitialRequest b = true → fetch_failed b c api →
  book (fetchNextPage b c api) = b.
Proof.
  intros Hdone (q & reason & Hreq & Hres).
  destruct (fetchNextPage_requests _ _ _ _ Hreq) as [Hq ->].
  rewrite (fetchPages_rejected _ _ _ _ _ _ Hq Hres). simpl.
  unfold sending. by rewrite Hdone.
Qed.

(** On the first request the flag is set before the transport is asked, and a
    rejected request leaves it set. *)
Lemma failed_first_fetch_marks_request_made b c api :
  hasMadeInitialRequest b = false → fetch_failed b c api →
  book (fetchNextPage b c api) = set_hasMadeInitialRequest true b.
Proof.
  intros Hfresh (q & reason & Hreq & Hres).
  destruct (fetchNextPage_requests _ _ _ _ Hreq) as [Hq ->].
  rewrite (fetchPages_rejected _ _ _ _ _ _ Hq Hres). simpl.
  unfold sending. by rewrite Hfresh.
Qed.

(** C2. A fresh book whose first request the transport rejects: the call
    rejects with the transport's failure, the token and [hasMore] are as
    before, but the book now counts the first request as made. The next call
    therefore rejects with [PAGINATED_RESPONSE_TAIL_REACHED] without asking
    the transport, although no page was ever received and [hasMore] is still
    [true]. *)
Theorem failed_first_fetch_is_not_retried :
  let b := new rust_options in
  let o := fetchNextPage b plain_client unreachable in
  result o = inl (TransportFailure "ECONNRESET") ∧
  nextToken (book o) = nextToken b ∧
  hasMore (book o) = hasMore b ∧
  hasMadeInitialRequest b = false ∧
  hasMadeInitialRequest (book o) = true ∧
  cursor (book o) ≠ cursor b ∧
  hasMore (book o) = true ∧
  fetchNextPage (book o) (client o) (answers first_page)
  = tail_reached (book o) (client o).
Proof.
  simpl. do 5 (split; [reflexivity|]). split; [intros [=]|]. by split.
Qed.

(** ** The cursor after a page *)

(** C4. A page that reports no result still moves the cursor: the token of
    the page is stored, [hasMore] is recomputed from it, and the call
    resolves with an empty collection. If the page has no token either, the
    cursor is exhausted as soon as the call is over: the next call is
    rejected by the guard. *)
Theorem empty_page_moves_cursor b c api resp :
  fetched b c api resp → result_count (meta resp) = 0 →
  let o := fetchNextPage b c api in
  result o = inr [] ∧
  nextToken (book o) = next_token (meta resp) ∧
  hasMore (book o) = truthy_string (next_token (meta resp)) ∧
  (next_token (meta resp) = None →
     cursor_state (book o) = Exhausted ∧
     ∀ api', fetchNextPage (book o) (client o) api'
             = tail_reached (book o) (client o)).
Proof.
  intros Hf Hz. simpl.
  rewrite (fetched_result _ _ _ _ Hf), (fetched_book _ _ _ _ Hf), Hz. simpl.
  split; [done|]. split; [done|]. split; [done|].
  intros Hnone.
  assert (cursor_state (set_cursor (next_token (meta resp))
                          (set_hasMadeInitialRequest true b)) = Exhausted)
    as He by (unfold cursor_state; simpl; by rewrite Hnone).
  split; [exact He|]. intros api'. by apply fetchNextPage_guard.
Qed.

(** A first page without results and without token. *)
Lemma empty_page_moves_cursor_witness :
  let b := new rust_options in
  let o := fetchNextPage b plain_client (answers empty_last_page) in
  result o = inr [] ∧ cursor_state b = NotStarted ∧
  cursor_state (book o) = Exhausted.
Proof.
  assert (fetched (new rust_options) plain_client (answers empty_last_page)
            empty_last_page) as Hf by (eexists; split; reflexivity).
  destruct (empty_page_moves_cursor _ _ _ _ Hf eq_refl) as (Hr & _ & _ & He).
  split; [exact Hr|]. split; [reflexivity|]. exact (proj1 (He eq_refl)).
Defined.

(** C5, as the code has it. Once the transport has answered a request, the
    first request counts as made, the stored token is the token of the
    response (none when the response has none), and [hasMore] tells whether
    that token is a non-empty string. The cursor is exhausted exactly when
    [hasMore] is false, in particular when the response has no token. *)
Theorem page_moves_cursor b c api resp :
  fetched b c api resp →
  let b' := book (fetchNextPage b c api) in
  hasMadeInitialRequest b' = true ∧
  nextToken b' = next_token (meta resp) ∧
  hasMore b' = truthy_string (next_token (meta resp)) ∧
  (cursor_state b' = Exhausted ↔ hasMore b' = false) ∧
  (next_token (meta resp) = None → cursor_state b' = Exhausted).
Proof.
  intros Hf. simpl. rewrite (fetched_book _ _ _ _ Hf).
  unfold cursor_state. simpl.
  repeat split; try done.
  - by destruct (truthy_string _).
  - by destruct (truthy_string _).
  - by intros ->.
Qed.

(** A first page with a token. *)
Lemma page_moves_cursor_witness :
  let b' := book (fetchNextPage (new rust_options) plain_client
                    (answers first_page)) in
  nextToken b' = Some "b26v89c19zqg8o3f" ∧ hasMore b' = true.
Proof.
  assert (fetched (new rust_options) plain_client (answers first_page)
            first_page) as Hf by (eexists; split; reflexivity).
  destruct (page_moves_cursor _ _ _ _ Hf) as (_ & Ht & Hm & _).
  split; [exact Ht | exact Hm].
Defined.

(** C5 as specified fails on a response whose token is the empty string: the
    token is stored, so it is not null, and [hasMore] is false. *)
Lemma blank_token_is_stored_without_hasMore : ¬ hasMore_is_token_presence.
Proof.
  intros H.
  specialize (H (new rust_options) plain_client (answers blank_token_page)
                blank_token_page).
  assert (fetched (new rust_options) plain_client (answers blank_token_page)
            blank_token_page) as Hf by (eexists; split; reflexivity).
  specialize (H Hf). vm_compute in H. discriminate H.
Qed.

(** ** Range bounds *)

Lemma build_query_bounds b c token q :
  build_query b c token = Some q → carries_bounds b q.
Proof.
  unfold build_query, carries_bounds. intros H.
  destruct (truthy_string (afterTweetId b));
    destruct (truthy_string (beforeTweetId b));
    destruct (truthy_number (maxResultsPerPage b));
    destruct (truthy_number (afterTimestamp b));
    destruct (truthy_number (beforeTimestamp b));
    simplify_option_eq; done.
Qed.

Lemma fetchPages_bounds b c api token :
  bounds (book (fetchPages b c api token)) = bounds b.
Proof.
  unfold fetchPages.
  destruct (build_query b c token) as [q|]; [|done].
  destruct (api q) as [reason|resp]; [done|].
  destruct (result_count (meta resp) =? 0); [done|].
  destruct (data resp) as [raws|]; [|done].
  destruct (collect (tweets c) [] raws (includes resp)); done.
Qed.

(** The bounds are the same after a call as before it. *)
Lemma fetchNextPage_bounds b c api :
  bounds (book (fetchNextPage b c api)) = bounds b.
Proof.
  unfold fetchNextPage.
  destruct (negb (hasMadeInitialRequest b)); [by rewrite fetchPages_bounds|].
  destruct (negb (truthy_string (nextToken b))); [done|].
  apply fetchPages_bounds.
Qed.

Lemma carries_bounds_ext b b' q :
  bounds b = bounds b' → carries_bounds b q → carries_bounds b' q.
Proof.
  unfold bounds, carries_bounds. intros [= -> -> -> -> ->]. done.
Qed.

Lemma fetchNextPage_carries_bounds b c api q :
  q ∈ requests (fetchNextPage b c api) → carries_bounds b q.
Proof.
  unfold fetchNextPage.
  destruct (negb (hasMadeInitialRequest b)).
  - rewrite fetchPages_requests.
    destruct (build_query _ c None) as [q'|] eqn:Hq; simpl; [|by intros ?%elem_of_nil].
    intros ->%list_elem_of_singleton.
    eapply carries_bounds_ext; [|by eapply build_query_bounds]. done.
  - destruct (negb (truthy_string (nextToken b))); [by intros ?%elem_of_nil|].
    rewrite fetchPages_requests.
    destruct (build_query b c _) as [q'|] eqn:Hq; simpl; [|by intros ?%elem_of_nil].
    intros ->%list_elem_of_singleton. by eapply build_query_bounds.
Qed.

(** C6, as the code has it. Every request of every call made on a book over
    its lifetime carries the bounds the book was in when the calls began, each
    under its parameter, provided the bound is truthy: an identifier that is
    not the empty string, a page size and a timestamp that are not zero. A
    bound that is null, empty or zero is left out. *)
Theorem truthy_bounds_are_sent b c apis o q :
  o ∈ run b c apis → q ∈ requests o →
  q_since_id q = (if truthy_string (afterTweetId b) then afterTweetId b else None) ∧
  q_until_id q = (if truthy_string (beforeTweetId b) then beforeTweetId b else None) ∧
  q_max_results q
  = (if truthy_number (maxResultsPerPage b) then maxResultsPerPage b else None) ∧
  q_start_time q
  = (if truthy_number (afterTimestamp b)
     then afterTimestamp b ≫= Date.toISOString else None) ∧
  q_end_time q
  = (if truthy_number (beforeTimestamp b)
     then beforeTimestamp b ≫= Date.toISOString else None).
Proof.
  revert b c. induction apis as [|api rest IH]; intros b c Ho Hq.
  - by apply elem_of_nil in Ho.
  - simpl in Ho. apply elem_of_cons in Ho as [->|Ho].
    + by apply (fetchNextPage_carries_bounds b c api).
    + apply (carries_bounds_ext (book (fetchNextPage b c api))).
      * apply fetchNextPage_bounds.
      * by eapply IH.
Qed.

(** The second request of a book bounded by the identifiers 100 and 200. *)
Lemma truthy_bounds_are_sent_witness :
  let o1 := fetchNextPage (new range_options) plain_client (answers first_page) in
  let o2 := fetchNextPage (book o1) (client o1) (answers empty_last_page) in
  ∃ q, requests o2 = [q] ∧ q_since_id q = Some "100" ∧ q_until_id q = Some "200".
Proof.
  intros o1 o2.
  assert (∃ q, requests o2 = [q]) as [q Hreq] by (eexists; reflexivity).
  exists q. split; [exact Hreq|].
  assert (o2 ∈ run (new range_options) plain_client
                 [answers first_page; answers empty_last_page]) as Ho
    by apply list_elem_of_further, list_elem_of_here.
  assert (q ∈ requests o2) as Hq by (rewrite Hreq; apply list_elem_of_here).
  destruct (truthy_bounds_are_sent _ _ _ _ _ Ho Hq) as (Hlo & Hhi & _).
  split; [exact Hlo | exact Hhi].
Defined.

(** C6 as specified fails on a book that searches from the epoch on: its
    lower time bound is zero, which is not null, and the request has no
    [start_time]. *)
Lemma epoch_bound_is_left_out : ¬ bounds_sent_when_non_null.
Proof.
  intros H.
  set (b := new epoch_options).
  set (o := fetchNextPage b plain_client (answers first_page)).
  assert (∃ q, requests o = [q] ∧ q_start_time q = None) as (q & Hreq & Hnone)
    by (eexists; split; reflexivity).
  assert (o ∈ run b plain_client [answers first_page]) as Ho
    by apply list_elem_of_here.
  assert (q ∈ requests o) as Hq by (rewrite Hreq; apply list_elem_of_here).
  destruct (H _ _ _ _ _ Ho Hq) as (_ & _ & _ & Hstart & _).
  specialize (Hstart 0 eq_refl). rewrite Hnone in Hstart.
  vm_compute in Hstart. discriminate Hstart.
Qed.

(** ** The collection a page resolves with *)

Lemma set_keys (col : list (Snowflake * Entity)) k v :
  Collection.keys (Collection.set same_id col k v)
  = push_key (Collection.keys col) k.
Proof.
  unfold push_key, Collection.keys.
  induction col as [|[k' v'] rest IH]; [done|].
  cbn [Collection.set]. unfold same_id at 1.
  destruct (decide (k' = k)) as [->|Hne].
  - rewrite bool_decide_eq_true_2 by done.
    rewrite bool_decide_eq_true_2 by apply list_elem_of_here. done.
  - rewrite bool_decide_eq_false_2 by done. rewrite !fmap_cons, IH. simpl.
      destruct (decide (k ∈ rest.*1)) as [Hin|Hnin].
    + rewrite !bool_decide_eq_true_2; [done| |done].
      by apply list_elem_of_further.
    + rewrite !bool_decide_eq_false_2; [done| |done].
      intros [?|?]%elem_of_cons; congruence.
Qed.

Lemma set_values (col : list (Snowflake * Entity)) k0 v0 k v :
  (k, v) ∈ Collection.set same_id col k0 v0 →
  (k, v) ∈ col ∨ (k = k0 ∧ v = v0).
Proof.
  induction col as [|[k' v'] rest IH]; simpl.
  - intros [= -> ->]%list_elem_of_singleton. by right.
  - unfold same_id at 1. case_bool_decide as Hk.
    + intros [[= -> ->]|Hin]%elem_of_cons; [by right|].
      left. by apply list_elem_of_further.
    + intros [[= -> ->]|Hin]%elem_of_cons; [left; apply list_elem_of_here|].
      destruct (IH Hin) as [?|?]; [left; by apply list_elem_of_further|by right].
Qed.

(** The manager hands out the tweet under the identifier it was given. *)
Lemma add_id s rid raw inc : id (add s rid raw inc).2 = rid.
Proof. reflexivity. Qed.

Lemma collect_keys s col raws inc :
  Collection.keys (collect s col raws inc).2
  = foldl push_key (Collection.keys col) (raw_id <$> raws).
Proof.
  revert s col. induction raws as [|raw rest IH]; intros s col; simpl; [done|].
  destruct (add s (raw_id raw) raw inc) as [s' tweet] eqn:Hadd.
  rewrite IH, set_keys.
  replace (id tweet) with (raw_id raw); [done|].
  by rewrite <- (add_id s (raw_id raw) raw inc), Hadd.
Qed.

Lemma collect_values s col raws inc :
  (∀ k v, (k, v) ∈ col → id v = k) →
  ∀ k v, (k, v) ∈ (collect s col raws inc).2 → id v = k.
Proof.
  revert s col. induction raws as [|raw rest IH]; intros s col Hcol; simpl; [done|].
  destruct (add s (raw_id raw) raw inc) as [s' tweet] eqn:Hadd.
  apply IH. intros k v [Hin|[-> ->]]%set_values; [by apply Hcol|done].
Qed.

(** Pushing keys one after the other keeps the keys there were and appends
    the first occurrence of every new one, in order. *)
Lemma push_keys_spec ids : ∀ ks,
  NoDup ks →
  ∃ extra, foldl push_key ks ids = ks ++ extra ∧
    NoDup (ks ++ extra) ∧
    extra `sublist_of` ids ∧
    (∀ k, k ∈ extra ↔ k ∈ ids ∧ k ∉ ks) ∧
    (NoDup ids → (∀ k, k ∈ ids → k ∉ ks) → extra = ids).
Proof.
  induction ids as [|i rest IH]; intros ks Hks; simpl.
  - exists []. rewrite app_nil_r.
    split; [done|]. split; [done|]. split; [done|]. split; [|done].
    intros k. split; [by intros ?%elem_of_nil | by intros [?%elem_of_nil _]].
  - unfold push_key at 2. case_bool_decide as Hi.
    + destruct (IH ks Hks) as (extra & Heq & Hnd & Hsub & Hmem & Hall).
      exists extra.
      split; [done|]. split; [done|]. split; [by apply sublist_cons|]. split.
      * intros k. rewrite Hmem, elem_of_cons. split; [tauto|].
        intros [[->|Hin] Hnin]; tauto.
      * intros _ Hdisj. exfalso.
        apply (Hdisj i); [apply list_elem_of_here | done].
    + assert (NoDup (ks ++ [i])) as Hks'.
      { apply NoDup_app. split; [done|]. split; [|apply NoDup_singleton].
        intros k Hk ->%list_elem_of_singleton. done. }
      destruct (IH _ Hks') as (extra & Heq & Hnd & Hsub & Hmem & Hall).
      exists (i :: extra). rewrite <- app_assoc in Heq, Hnd.
      split; [done|]. split; [done|]. split; [by apply sublist_skip|]. split.
      * intros k. rewrite !elem_of_cons, Hmem, not_elem_of_app.
        rewrite list_elem_of_singleton.
        destruct (decide (k = i)) as [->|Hne]; [tauto|]. tauto.
      * intros [Hni Hnd']%NoDup_cons Hdisj. f_equal. apply Hall; [done|].
        intros k Hk. apply not_elem_of_app. split.
        -- apply Hdisj. by apply list_elem_of_further.
        -- intros ->%list_elem_of_singleton. done.
Qed.

Lemma collect_add_all raws : ∀ s col inc,
  collect s col raws inc
  = ((add_all s raws inc).1, foldl set_tweet col (add_all s raws inc).2).
Proof.
  induction raws as [|raw rest IH]; intros s col inc; [done|].
  cbn [collect add_all].
  destruct (add s (raw_id raw) raw inc) as [s1 tweet].
  rewrite IH. destruct (add_all s1 rest inc). reflexivity.
Qed.

(** What the manager returns for a tweet has the identifier of the tweet and
    every field its payload carries. *)
Lemma add_all_entities raws : ∀ s inc,
  Forall2 (λ raw t, id t = raw_id raw ∧ raw_fields raw ⊆ fields t)
          raws (add_all s raws inc).2.
Proof.
  induction raws as [|raw rest IH]; intros s inc; [constructor|].
  cbn [add_all].
  destruct (add s (raw_id raw) raw inc) as [s1 tweet] eqn:Hadd.
  specialize (IH s1 inc). destruct (add_all s1 rest inc) as [s2 tweets].
  simpl. constructor; [|done].
  unfold add, upsert in Hadd. injection Hadd as _ <-. simpl.
  split; [done|]. apply map_union_subseteq_l.
Qed.

Lemma get_set (col : list (Snowflake * Entity)) k v k' :
  Collection.get same_id (Collection.set same_id col k v) k'
  = if bool_decide (k = k') then Some v else Collection.get same_id col k'.
Proof.
  induction col as [|[k0 v0] rest IH]; simpl.
  - unfold same_id. by repeat case_bool_decide.
  - unfold same_id in *. destruct (decide (k0 = k)) as [->|Hne].
    + rewrite bool_decide_eq_true_2 by done. simpl.
      by repeat case_bool_decide.
    + rewrite bool_decide_eq_false_2 by done. simpl. rewrite IH.
      repeat case_bool_decide; simplify_eq; done.
Qed.

(** Under an identifier the collection holds the last tweet set under it. *)
Lemma get_foldl_set ts : ∀ col k,
  Collection.get same_id (foldl set_tweet col ts) k
  = match latest k ts with
    | Some t => Some t
    | None => Collection.get same_id col k
    end.
Proof.
  unfold latest.
  induction ts as [|t rest IH]; intros col k; [done|].
  cbn [foldl]. rewrite IH. unfold set_tweet. rewrite get_set, filter_cons.
  destruct (decide (id t = k)) as [Hk|Hk].
  - rewrite last_cons, bool_decide_eq_true_2 by done.
    by destruct (last (filter (λ t0, id t0 = k) rest)).
  - by rewrite bool_decide_eq_false_2 by done.
Qed.

Lemma push_keys_first_occurrences ids : ∀ ks seen,
  (∀ k, k ∈ seen ↔ k ∈ ks) →
  foldl push_key ks ids = ks ++ first_occurrences seen ids.
Proof.
  induction ids as [|i rest IH]; intros ks seen Hseen; simpl.
  - by rewrite app_nil_r.
  - unfold push_key at 2.
    rewrite (bool_decide_ext (i ∈ seen) (i ∈ ks)) by apply Hseen.
    case_bool_decide as Hi.
    + by apply IH.
    + rewrite (IH (ks ++ [i]) (i :: seen)); [by rewrite <- app_assoc|].
      intros k. rewrite elem_of_cons, elem_of_app, list_elem_of_singleton.
      rewrite Hseen. tauto.
Qed.

Lemma set_new_key (col : list (Snowflake * Entity)) k v :
  k ∉ col.*1 → Collection.set same_id col k v = col ++ [(k, v)].
Proof.
  induction col as [|[k0 v0] rest IH]; simpl; [done|].
  intros Hk. apply not_elem_of_cons in Hk as [Hne Hk].
  unfold same_id at 1. rewrite bool_decide_eq_false_2 by congruence.
  by rewrite IH.
Qed.

Lemma foldl_set_distinct ts : ∀ col,
  NoDup (col.*1 ++ (id <$> ts)) →
  foldl set_tweet col ts = col ++ ((λ t, (id t, t)) <$> ts).
Proof.
  induction ts as [|t rest IH]; intros col Hnd.
  - simpl. by rewrite app_nil_r.
  - cbn [foldl]. unfold set_tweet at 2. rewrite set_new_key.
    + rewrite IH; [by rewrite <- app_assoc|].
      rewrite fmap_app, <- app_assoc. done.
    + apply NoDup_app in Hnd as (_ & Hdisj & _). intros Hin.
      apply (Hdisj _ Hin). apply list_elem_of_here.
Qed.

Lemma entities_ids (raws : list RawObject) (ts : list Entity) :
  Forall2 (λ raw t, id t = raw_id raw ∧ raw_fields raw ⊆ fields t) raws ts →
  id <$> ts = raw_id <$> raws.
Proof.
  induction 1 as [|raw t raws ts [Hid _] _ IH]; [done|].
  by rewrite !fmap_cons, Hid, IH.
Qed.

Lemma fetched_page b c api resp raws :
  fetched b c api resp →
  result_count (meta resp) ≠ 0 → data resp = Some raws →
  result (fetchNextPage b c api)
  = inr (collect (tweets c) [] raws (includes resp)).2 ∧
  client (fetchNextPage b c api)
  = set_store (collect (tweets c) [] raws (includes resp)).1 c.
Proof.
  intros (q & Hreq & Hresp) Hcount Hdata.
  destruct (fetchNextPage_requests _ _ _ _ Hreq) as [Hq ->].
  unfold fetchPages. rewrite Hq, Hresp, Hdata.
  rewrite (proj2 (Z.eqb_neq _ _) Hcount).
  by destruct (collect (tweets c) [] raws (includes resp)).
Qed.

(** C7. A page that reports results and carries them makes one call to the
    manager per tweet, in the order of the response, and resolves with a
    collection of what these calls returned, keyed by tweet identifier. No
    identifier occurs twice among its keys; its keys are exactly the
    identifiers of the tweets of the response, each at the place where the
    response has it first; under each key the collection holds the tweet the
    manager returned for the last tweet of that identifier, which has that
    identifier and the fields of that tweet's payload; when the tweets of
    the response are pairwise distinct the collection is these tweets one by
    one. The client keeps the store the calls leave. [hasMore] is true when
    the response has a token that is not empty. *)
Theorem page_is_ordered_mapping b c api resp raws :
  fetched b c api resp →
  result_count (meta resp) ≠ 0 → data resp = Some raws →
  let added := add_all (tweets c) raws (includes resp) in
  ∃ col, result (fetchNextPage b c api) = inr col ∧
    NoDup (Collection.keys col) ∧
    (∀ k, k ∈ Collection.keys col ↔ k ∈ raw_id <$> raws) ∧
    Collection.keys col `sublist_of` (raw_id <$> raws) ∧
    (∀ k v, (k, v) ∈ col → id v = k) ∧
    (NoDup (raw_id <$> raws) →
       Collection.keys col = raw_id <$> raws ∧ length col = length raws) ∧
    hasMore (book (fetchNextPage b c api))
    = truthy_string (next_token (meta resp)) ∧
    client (fetchNextPage b c api) = set_store added.1 c ∧
    Forall2 (λ raw t, id t = raw_id raw ∧ raw_fields raw ⊆ fields t)
            raws added.2 ∧
    Collection.keys col = first_occurrences [] (raw_id <$> raws) ∧
    (∀ k, Collection.get same_id col k = latest k added.2) ∧
    (NoDup (raw_id <$> raws) → col = (λ t, (id t, t)) <$> added.2).
Proof.
  intros Hf Hcount Hdata added.
  destruct (fetched_page _ _ _ _ _ Hf Hcount Hdata) as [-> ->].
  rewrite (fetched_book _ _ _ _ Hf).
  eexists. split; [reflexivity|].
  destruct (push_keys_spec (raw_id <$> raws) [] (NoDup_nil_2))
    as (extra & Heq & Hnd & Hsub & Hmem & Hall).
  simpl in Heq, Hnd.
  assert (Collection.keys (collect (tweets c) [] raws (includes resp)).2 = extra)
    as Hkeys by (by rewrite collect_keys).
  pose proof (add_all_entities raws (tweets c) (includes resp)) as Hadded.
  fold added in Hadded.
  pose proof (entities_ids _ _ Hadded) as Hids.
  rewrite Hkeys.
  split; [done|]. split.
  { intros k. split; [intros Hk; by apply Hmem|].
    intros Hk. apply Hmem. split; [done|]. by intros ?%elem_of_nil. }
  split; [done|]. split.
  { apply collect_values. by intros k v ?%elem_of_nil. }
  split.
  { intros Hdistinct.
    assert (extra = raw_id <$> raws) as ->
      by (apply Hall; [done|]; by intros k _ ?%elem_of_nil).
    split; [done|].
    rewrite <- (length_fmap fst), <- (length_fmap raw_id raws).
    f_equal. exact Hkeys. }
  split; [done|].
  rewrite collect_add_all. fold added. cbn [fst snd].
  split; [done|]. split; [done|]. split.
  { rewrite <- Heq. by rewrite (push_keys_first_occurrences _ [] []). }
  split.
  { intros k. rewrite get_foldl_set. by destruct (latest k added.2). }
  intros Hdistinct. rewrite foldl_set_distinct; [done|].
  simpl. by rewrite Hids.
Qed.

(** The scenario of the specification: three tweets and a token. *)
Lemma page_is_ordered_mapping_witness :
  let o := fetchNextPage (new rust_options) plain_client (answers first_page) in
  ∃ col, result o = inr col ∧ Collection.keys col = ["3"; "2"; "1"] ∧
    length col = 3%nat ∧ hasMore (book o) = true ∧
    fields <$> Collection.get same_id col "2" = Some {[ "text" := "b" ]} ∧
    fields <$> tweets (client o) !! ("tweet", "2") = Some {[ "text" := "b" ]}.
Proof.
  assert (fetched (new rust_options) plain_client (answers first_page)
            first_page) as Hf by (eexists; split; reflexivity).
  assert (result_count (meta first_page) ≠ 0) as Hcount by (intros [=]).
  destruct (page_is_ordered_mapping _ _ _ _ _ Hf Hcount eq_refl)
    as (col & Hres & _ & _ & _ & _ & Hdistinct & Hmore & Hclient & _ & _
        & Hget & _).
  assert (NoDup (raw_id <$> [tweet "3" "c"; tweet "2" "b"; tweet "1" "a"]))
    as Hnd by (by apply (bool_decide_unpack _)).
  destruct (Hdistinct Hnd) as [Hkeys Hlen].
  exists col. split; [exact Hres|]. split; [exact Hkeys|].
  split; [exact Hlen|]. split; [exact Hmore|]. split.
  - rewrite Hget. reflexivity.
  - cbv zeta. rewrite Hclient. reflexivity.
Defined.

(** A page in which the tweet 3 comes first and last: it keeps its first
    place and holds what the manager returned last. *)
Example page_with_repeat_mapping :
  let o := fetchNextPage (new rust_options) plain_client
             (answers MoreSamples.page_with_repeat) in
  ∃ col, result o = inr col ∧ Collection.keys col = ["3"; "2"] ∧
    fields <$> Collection.get same_id col "3"
    = Some {[ "text" := "c again" ]}.
Proof. eexists. split; [reflexivity|]. split; reflexivity. Qed.

(** ** A fresh book *)

(** C10. A book that was just constructed has [hasMore = true] although it
    holds no token and has made no request. [hasMore] then follows the token
    of the first response the transport gives (true exactly for a token that
    is not empty); for as long as no response was received it stays [true]. *)
Theorem fresh_book_hasMore options c api :
  let b := new options in
  hasMore b = true ∧ nextToken b = None ∧ hasMadeInitialRequest b = false ∧
  (∀ resp, fetched b c api resp →
     hasMore (book (fetchNextPage b c api))
     = truthy_string (next_token (meta resp))) ∧
  ((∀ resp, ¬ fetched b c api resp) →
     hasMore (book (fetchNextPage b c api)) = true).
Proof.
  simpl. split; [done|]. split; [done|]. split; [done|]. split.
  - intros resp Hf. by rewrite (fetched_book _ _ _ _ Hf).
  - intros Hnone. unfold fetchNextPage. simpl. unfold fetchPages.
    destruct (build_query _ c None) as [q|] eqn:Hq; [|done].
    destruct (api q) as [reason|resp] eqn:Hres; [done|].
    exfalso. apply (Hnone resp). exists q. split; [|done].
    unfold fetchNextPage. simpl. by rewrite fetchPages_requests, Hq.
Qed.

(** A fresh book, its first call answered with a last page, and its first
    call rejected. *)
Lemma fresh_book_hasMore_witness :
  hasMore (new rust_options) = true ∧
  hasMore (book (fetchNextPage (new rust_options) plain_client
                   (answers empty_last_page))) = false ∧
  hasMore (book (fetchNextPage (new rust_options) plain_client unreachable))
  = true.
Proof.
  destruct (fresh_book_hasMore rust_options plain_client (answers empty_last_page))
    as (Hnew & _ & _ & Hfirst & _).
  destruct (fresh_book_hasMore rust_options plain_client unreachable)
    as (_ & _ & _ & _ & Hdown).
  split; [exact Hnew|]. split.
  - apply (Hfirst empty_last_page). eexists; split; reflexivity.
  - apply Hdown. intros resp (q & _ & Hres). discriminate Hres.
Defined.

End BooksTheory.

(** * Properties of [JSON.parse] *)
Module JSTheory.
Import JS.

Lemma is_whitespace_cases c :
  is_whitespace c = true → c = 32%N ∨ c = 9%N ∨ c = 10%N ∨ c = 13%N.
Proof.
  unfold is_whitespace. rewrite !orb_true_iff, !N.eqb_eq. tauto.
Qed.

Lemma start_step_whitespace c :
  is_whitespace c = true → start_step c = Some (LStart, []).
Proof. unfold start_step. by intros ->. Qed.

Lemma lex_blank ws : blank ws = true → lex LStart ws = Some [].
Proof.
  induction ws as [|c ws IH]; simpl; [done|].
  intros [Hc Hws]%andb_true_iff.
  rewrite (start_step_whitespace _ Hc). simpl. by rewrite IH.
Qed.

(** White space ends a number that is complete. *)
Lemma number_step_whitespace ph n c :
  is_whitespace c = true → lex_end (LNumber ph n) = Some [number_token n] →
  number_step ph n c = Some (LStart, [number_token n]).
Proof.
  intros Hc Hend.
  apply is_whitespace_cases in Hc as [-> | [-> | [-> | ->]]];
    destruct ph; simpl in Hend; try discriminate Hend; reflexivity.
Qed.

Lemma lex_end_blank st toks ws :
  lex_end st = Some toks → blank ws = true → lex st ws = Some toks.
Proof.
  intros Hend Hws. destruct ws as [|c ws]; [done|].
  simpl in Hws. apply andb_true_iff in Hws as [Hc Hws].
  destruct st; simpl in Hend; try discriminate Hend.
  - injection Hend as <-. by apply (lex_blank (c :: ws)), andb_true_iff.
  - assert (toks = [number_token n]) as ->
      by (destruct ph; simpl in Hend; congruence).
    simpl. rewrite (number_step_whitespace _ _ _ Hc Hend). simpl.
    by rewrite (lex_blank _ Hws).
Qed.

(** White space after a text that lexes adds no token. *)
Lemma lex_trailing_blank input : ∀ st toks ws,
  lex st input = Some toks → blank ws = true →
  lex st (input ++ ws) = Some toks.
Proof.
  induction input as [|c rest IH]; intros st toks ws Hlex Hws; simpl in *.
  - by apply lex_end_blank.
  - destruct (lex_step st c) as [[st' toks1]|]; simpl in *; [|done].
    destruct (lex st' rest) as [toks2|] eqn:Hrest; simpl in *; [|done].
    by rewrite (IH _ _ _ Hrest Hws).
Qed.

(** A blank text is not a JSON text. *)
Lemma JSON_parse_blank ws : blank ws = true → JSON_parse ws = None.
Proof. intros Hws. unfold JSON_parse. by rewrite (lex_blank _ Hws). Qed.

(** A line terminator after a JSON text does not change what it decodes
    to. *)
Lemma JSON_parse_trailing_blank input v ws :
  JSON_parse input = Some v → blank ws = true →
  JSON_parse (input ++ ws) = Some v.
Proof.
  unfold JSON_parse. intros Hparse Hws.
  destruct (lex LStart input) as [toks|] eqn:Hlex; [|done].
  by rewrite (lex_trailing_blank _ _ _ _ Hlex Hws).
Qed.

Lemma typeof_string v : typeof v = "string" ↔ ∃ s, v = Str s.
Proof.
  split; [|by intros [s ->]].
  destruct v; try discriminate; eauto.
Qed.

End JSTheory.

(** * Properties of the client *)
Module ClientTheory.
Import JS Client JSTheory.

(** ** One chunk *)

(** A chunk that is not a JSON text leaves the client as it was. *)
Lemma on_data_undecodable k c chunk :
  JSON_parse chunk = None → on_data k c chunk = c.
Proof.
  intros Hbad. destruct k; simpl;
    unfold filtered_on_data, sampled_on_data; by rewrite Hbad.
Qed.

(** What the listener does depends on the chunk only through what it decodes
    to. *)
Lemma on_data_same_parse k c chunk chunk' :
  JSON_parse chunk = JSON_parse chunk' → on_data k c chunk = on_data k c chunk'.
Proof.
  intros Heq. destruct k; simpl;
    unfold filtered_on_data, sampled_on_data; by rewrite Heq.
Qed.

Lemma sampled_on_data_record c chunk v rid :
  JSON_parse chunk = Some v → data_id v = inr rid →
  sampled_on_data c chunk
  = emit (SAMPLED_TWEET_CREATE (_add (tweets c) rid v false).2)
         (set_tweets (_add (tweets c) rid v false).1 c).
Proof.
  intros Hv Hid. unfold sampled_on_data. rewrite Hv, Hid.
  by destruct (_add (tweets c) rid v false).
Qed.

Lemma filtered_on_data_record c chunk v rid rules col :
  JSON_parse chunk = Some v → data_id v = inr rid →
  member_or_undefined v "matching_rules" = Array rules →
  reduce_rules [] rules = inr col →
  filtered_on_data c chunk
  = emit (FILTERED_TWEET_CREATE (_add (tweets c) rid v false).2 col)
         (set_tweets (_add (tweets c) rid v false).1 c).
Proof.
  intros Hv Hid Hrules Hcol. unfold filtered_on_data. rewrite Hv, Hid.
  destruct (_add (tweets c) rid v false). by rewrite Hrules, Hcol.
Qed.

Lemma consume_app k c chunks chunks' :
  consume k c (chunks ++ chunks') = consume k (consume k c chunks) chunks'.
Proof. apply foldl_app. Qed.

Lemma consume_skip k c before bad after :
  JSON_parse bad = None →
  consume k c (before ++ bad :: after) = consume k c (before ++ after).
Proof.
  intros Hbad. rewrite !consume_app. unfold consume at 1. simpl.
  by rewrite (on_data_undecodable _ _ _ Hbad).
Qed.

Lemma consume_skip_head k c bad after :
  JSON_parse bad = None → consume k c (bad :: after) = consume k c after.
Proof. intros Hbad. exact (consume_skip k c [] bad after Hbad). Qed.

(** ** Chunks and records *)

(** C3, as the code has it. The listener decodes every chunk on its own as
    one JSON text and keeps nothing of a chunk for the next one. A chunk that
    is not a JSON text by itself, be it a blank keep-alive line or a part of a
    record, is dropped and leaves no trace; so two chunks that are each a part
    of a record produce no event, whatever they would decode to when joined.
    A chunk that holds one whole record followed by its line terminator is
    decoded as that record. *)
Theorem chunks_are_decoded_one_by_one k c :
  (∀ chunk, JSON_parse chunk = None → on_data k c chunk = c) ∧
  (∀ chunk, blank chunk = true → on_data k c chunk = c) ∧
  (∀ first second rest,
     JSON_parse first = None → JSON_parse second = None →
     consume k c (first :: second :: rest) = consume k c rest) ∧
  (∀ record v ws,
     JSON_parse record = Some v → blank ws = true →
     on_data k c (record ++ ws) = on_data k c record).
Proof.
  split; [intros; by apply on_data_undecodable|].
  split; [intros; by apply on_data_undecodable, JSON_parse_blank|].
  split.
  - intros first second rest H1 H2.
    by rewrite (consume_skip_head _ _ _ _ H1), (consume_skip_head _ _ _ _ H2).
  - intros record v ws Hv Hws. apply on_data_same_parse.
    by rewrite Hv, (JSON_parse_trailing_blank _ _ _ Hv Hws).
Qed.

(** The record in two chunks and a keep-alive line; the record in one
    chunk with its line terminator. *)
Lemma chunks_are_decoded_one_by_one_witness :
  consume Sampled (new [] None) [record_cut; record_tail; [13%N; 10%N]]
  = new [] None ∧
  on_data Sampled (new [] None) (record_cut ++ record_tail)
  = on_data Sampled (new [] None) (text "{'data':{'id':'1'}}").
Proof.
  destruct (chunks_are_decoded_one_by_one Sampled (new [] None))
    as (_ & Hblank & Hparts & Hline).
  split.
  - rewrite Hparts by reflexivity. apply Hblank. reflexivity.
  - exact (Hline (text "{'data':{'id':'1'}}")
             (Object [(str "data", Object [(str "id", Str (str "1"))])])
             [10%N] eq_refl eq_refl).
Defined.

(** C3 as specified fails on its own scenario: the record cut in two chunks
    produces no event on either stream, be it cut as the scenario writes it
    or cut so that the chunks join to the record. Had it arrived in one chunk,
    the sampled stream would have produced its event. *)
Lemma split_record_is_lost :
  ¬ split_record_emits_once Sampled record_head record_tail ∧
  ¬ split_record_emits_once Filtered record_head record_tail ∧
  ¬ split_record_emits_once Sampled record_cut record_tail ∧
  ¬ split_record_emits_once Filtered record_cut record_tail ∧
  length (emitted (consume Sampled (new [] None) [record_cut ++ record_tail]))
  = 1%nat.
Proof.
  repeat split; try reflexivity;
    intros H; specialize (H (new [] None)); vm_compute in H; discriminate H.
Qed.

(** ** A record that does not decode *)




(** The same two lines, each in a chunk of its own, and the well-formed
    record cut in two after the chunk that does not decode. *)
Example record_after_bad_chunk :
  length (emitted (consume Sampled (new [] None)
                     [Samples.broken_record ++ [10%N];
                      StreamRecords.plain_record ++ [10%N]])) = 1%nat ∧
  emitted (consume Sampled (new [] None)
             [Samples.broken_record ++ [10%N];
              text "{'data':{'id':'1',"; text "'text':'hi'}}" ++ [10%N]])
  = [].
Proof. split; reflexivity. Qed.

(** ** Arguments of the wrong type *)

Lemma build_query_query b c token q :
  Books.build_query b c token = Some q → Books.q_query q = Books.query b.
Proof.
  unfold Books.build_query. intros H.
  destruct (truthy_string (Books.afterTweetId b));
    destruct (truthy_string (Books.beforeTweetId b));
    destruct (truthy_number (Books.maxResultsPerPage b));
    destruct (truthy_number (Books.afterTimestamp b));
    destruct (truthy_number (Books.beforeTimestamp b));
    simplify_option_eq; done.
Qed.

(** C9, as the code has it. [loginWithBearerToken] rejects a token that is
    not a string with [INVALID_TYPE] before it does anything else: the client
    is as it was, so nothing was emitted and no stream was requested.
    [createBook] checks nothing: it builds the book from the options as they
    are, without a request, and a book built without a query sends its
    requests without one. *)
Theorem login_checks_token_createBook_checks_nothing c now tok options :
  (typeof tok ≠ "string" →
     loginWithBearerToken c now tok
     = (c, inl (CustomTypeError "INVALID_TYPE" "token" "string" false))) ∧
  createBook c (Some options) = (c, inr (Books.new options)) ∧
  (∀ bc api q,
     q ∈ Books.requests (Books.fetchNextPage (Books.new options) bc api) →
     Books.q_query q = Books.opt_query options).
Proof.
  split; [|split; [done|]].
  - intros Htype. unfold loginWithBearerToken.
    by rewrite bool_decide_eq_false_2.
  - intros bc api q. unfold Books.fetchNextPage. simpl.
    rewrite BooksTheory.fetchPages_requests.
    destruct (Books.build_query _ bc None) as [q'|] eqn:Hq; simpl.
    + intros ->%list_elem_of_singleton. by rewrite (build_query_query _ _ _ _ Hq).
    + by intros ?%elem_of_nil.
Qed.

(** A client that listens to the sampled stream, logged in with the number
    42 for a token. *)
Lemma login_checks_token_createBook_checks_nothing_witness :
  loginWithBearerToken (new ["SAMPLED_TWEET_CREATE"] None) 0 (Number 42 0)
  = (new ["SAMPLED_TWEET_CREATE"] None,
     inl (CustomTypeError "INVALID_TYPE" "token" "string" false)).
Proof.
  destruct (login_checks_token_createBook_checks_nothing
              (new ["SAMPLED_TWEET_CREATE"] None) 0 (Number 42 0)
              Samples.no_options) as (Hlogin & _).
  apply Hlogin. intros [=].
Defined.

(** C9 as specified fails on [createBook]: options without a query are not
    rejected, the book is built. *)
Lemma createBook_accepts_missing_query : ¬ createBook_requires_query.
Proof.
  intros H.
  destruct (H (new [] None) Samples.no_options eq_refl) as [e He].
  discriminate He.
Qed.

End ClientTheory.

(** * More properties of [SearchTweetsBook] *)
Module BooksMore.
Import TweetManager Books Samples MoreSamples BookInvariants BooksTheory.

(** ** What a request carries besides the bounds *)

Lemma build_query_fixed b c token q :
  build_query b c token = Some q →
  q_next_token q = token ∧ q_query q = query b ∧
  q_expansions q = queryParameters c ≫= tweetExpansions ∧
  q_tweet_fields q = queryParameters c ≫= tweetFields ∧
  q_user_fields q = queryParameters c ≫= userFields ∧
  q_media_fields q = queryParameters c ≫= mediaFields ∧
  q_place_fields q = queryParameters c ≫= placeFields ∧
  q_poll_fields q = queryParameters c ≫= pollFields.
Proof.
  unfold build_query. intros H.
  destruct (truthy_string (afterTweetId b));
    destruct (truthy_string (beforeTweetId b));
    destruct (truthy_number (maxResultsPerPage b));
    destruct (truthy_number (afterTimestamp b));
    destruct (truthy_number (beforeTimestamp b));
    simplify_option_eq; done.
Qed.

(** The request of a call, if it makes one, is the query built for the book
    and the token the call sends. *)
Lemma fetchNextPage_request b c api q :
  q ∈ requests (fetchNextPage b c api) →
  build_query (sending b).1 c (sending b).2 = Some q ∧
  (hasMadeInitialRequest b = true → truthy_string (nextToken b) = true).
Proof.
  unfold fetchNextPage, sending.
  destruct (hasMadeInitialRequest b); simpl.
  - destruct (truthy_string (nextToken b)); simpl; [|by intros ?%elem_of_nil].
    rewrite fetchPages_requests.
    destruct (build_query b c _) as [q'|]; simpl; [|by intros ?%elem_of_nil].
    by intros ->%list_elem_of_singleton.
  - rewrite fetchPages_requests.
    destruct (build_query _ c None) as [q'|]; simpl; [|by intros ?%elem_of_nil].
    by intros ->%list_elem_of_singleton.
Qed.

(** Case analysis along the branches of [fetchNextPage] and [#fetchPages]. *)
Ltac fetch_cases :=
  unfold fetchNextPage, fetchPages;
  repeat match goal with
  | |- context [negb (hasMadeInitialRequest ?b)] =>
      destruct (hasMadeInitialRequest b) eqn:?; simpl
  | |- context [negb (truthy_string (nextToken ?b))] =>
      destruct (truthy_string (nextToken b)) eqn:?; simpl
  | |- context [build_query ?b ?c ?t] =>
      destruct (build_query b c t) as [?q|] eqn:?
  | |- context [match ?api ?q with inl _ => _ | inr _ => _ end] =>
      destruct (api q) as [?reason|?resp] eqn:?
  | |- context [result_count ?m =? 0] =>
      destruct (result_count m =? 0) eqn:?
  | |- context [match data ?r with Some _ => _ | None => _ end] =>
      destruct (data r) as [?raws|] eqn:?
  | |- context [collect ?s ?col ?r ?i] =>
      destruct (collect s col r i) as [? ?] eqn:?
  end.

(** A call changes neither the query of the book nor the settings of the
    client. *)
Lemma fetchNextPage_query b c api :
  query (book (fetchNextPage b c api)) = query b.
Proof. fetch_cases; done. Qed.

Lemma fetchNextPage_queryParameters b c api :
  queryParameters (client (fetchNextPage b c api)) = queryParameters c.
Proof. fetch_cases; done. Qed.

(** Whatever a call does, the book counts the first request as made
    afterwards. *)
Lemma fetchNextPage_started b c api :
  hasMadeInitialRequest (book (fetchNextPage b c api)) = true.
Proof. fetch_cases; done. Qed.

(** X1. The request that follows an answered request carries the token of
    that answer, and there is such a request only if that token is a
    non-empty string. *)
Theorem next_request_follows_token b c api resp api' q :
  fetched b c api resp →
  let o := fetchNextPage b c api in
  q ∈ requests (fetchNextPage (book o) (client o) api') →
  q_next_token q = next_token (meta resp) ∧
  truthy_string (next_token (meta resp)) = true.
Proof.
  intros Hf o Hq.
  destruct (fetchNextPage_request _ _ _ _ Hq) as [Hbuild Htoken].
  apply build_query_fixed in Hbuild as [Htok _].
  unfold o in *. rewrite (fetched_book _ _ _ _ Hf) in *.
  unfold sending in Htok. simpl in *. split; [done|]. by apply Htoken.
Qed.

Lemma next_request_follows_token_witness :
  let o := fetchNextPage (new rust_options) plain_client (answers first_page) in
  ∃ q, requests (fetchNextPage (book o) (client o) (answers empty_last_page))
       = [q] ∧ q_next_token q = Some "b26v89c19zqg8o3f".
Proof.
  intros o.
  assert (∃ q, requests (fetchNextPage (book o) (client o)
                           (answers empty_last_page)) = [q]) as [q Hreq]
    by (eexists; reflexivity).
  exists q. split; [exact Hreq|].
  assert (fetched (new rust_options) plain_client (answers first_page)
            first_page) as Hf by (eexists; split; reflexivity).
  assert (q ∈ requests (fetchNextPage (book o) (client o)
                          (answers empty_last_page))) as Hq
    by (rewrite Hreq; apply list_elem_of_here).
  exact (proj1 (next_request_follows_token _ _ _ _ _ _ Hf Hq)).
Defined.

(** X2. A book asks for its first page at most once: after any first call,
    answered or not, every request the book makes in any later call carries a
    non-empty token. *)
Theorem first_page_is_requested_once b c api apis o q :
  let o1 := fetchNextPage b c api in
  o ∈ run (book o1) (client o1) apis → q ∈ requests o →
  truthy_string (q_next_token q) = true.
Proof.
  simpl. pose proof (fetchNextPage_started b c api) as Hstarted.
  generalize dependent (client (fetchNextPage b c api)).
  generalize dependent (book (fetchNextPage b c api)).
  clear b c api. intros b Hstarted c.
  revert b c Hstarted. induction apis as [|api rest IH]; intros b c Hstarted Ho Hq.
  - by apply elem_of_nil in Ho.
  - simpl in Ho. apply elem_of_cons in Ho as [->|Ho].
    + destruct (fetchNextPage_request _ _ _ _ Hq) as [Hbuild Htoken].
      apply build_query_fixed in Hbuild as [-> _].
      unfold sending. rewrite Hstarted. simpl. by apply Htoken.
    + eapply IH; [|done|done]. apply fetchNextPage_started.
Qed.

Lemma first_page_is_requested_once_witness :
  let o1 := fetchNextPage (new rust_options) plain_client (answers first_page) in
  let o2 := fetchNextPage (book o1) (client o1) (answers first_page) in
  ∃ q, requests o2 = [q] ∧ truthy_string (q_next_token q) = true.
Proof.
  intros o1 o2.
  assert (∃ q, requests o2 = [q]) as [q Hreq] by (eexists; reflexivity).
  exists q. split; [exact Hreq|].
  apply (first_page_is_requested_once (new rust_options) plain_client
           (answers first_page) [answers first_page] o2 q).
  - apply list_elem_of_here.
  - rewrite Hreq. apply list_elem_of_here.
Defined.

(** X3. Every request a book makes over its lifetime carries the query the
    book was built with and the field selections of the client, each under
    its parameter. *)
Theorem requests_carry_query_and_fields b c apis o q :
  o ∈ run b c apis → q ∈ requests o →
  q_query q = query b ∧
  q_expansions q = queryParameters c ≫= tweetExpansions ∧
  q_tweet_fields q = queryParameters c ≫= tweetFields ∧
  q_user_fields q = queryParameters c ≫= userFields ∧
  q_media_fields q = queryParameters c ≫= mediaFields ∧
  q_place_fields q = queryParameters c ≫= placeFields ∧
  q_poll_fields q = queryParameters c ≫= pollFields.
Proof.
  revert b c. induction apis as [|api rest IH]; intros b c Ho Hq.
  - by apply elem_of_nil in Ho.
  - simpl in Ho. apply elem_of_cons in Ho as [->|Ho].
    + destruct (fetchNextPage_request _ _ _ _ Hq) as [Hbuild _].
      apply build_query_fixed in Hbuild as (_ & -> & H).
      split; [|exact H]. unfold sending.
      by destruct (negb (hasMadeInitialRequest b)).
    + specialize (IH _ _ Ho Hq).
      rewrite fetchNextPage_query, fetchNextPage_queryParameters in IH.
      exact IH.
Qed.

Lemma requests_carry_query_and_fields_witness :
  let o1 := fetchNextPage (new rust_options) plain_client (answers first_page) in
  let o2 := fetchNextPage (book o1) (client o1) (answers first_page) in
  ∃ q, requests o2 = [q] ∧ q_query q = Some "rust".
Proof.
  intros o1 o2.
  assert (∃ q, requests o2 = [q]) as [q Hreq] by (eexists; reflexivity).
  exists q. split; [exact Hreq|].
  assert (o2 ∈ run (new rust_options) plain_client
                 [answers first_page; answers first_page]) as Ho
    by apply list_elem_of_further, list_elem_of_here.
  assert (q ∈ requests o2) as Hq by (rewrite Hreq; apply list_elem_of_here).
  exact (proj1 (requests_carry_query_and_fields _ _ _ _ _ Ho Hq)).
Defined.

(** ** A timestamp no [Date] can hold *)

Lemma toISOString_beyond_range t :
  Date.maxTime < Z.abs t → Date.toISOString t = None.
Proof.
  intros Ht. unfold Date.toISOString, Date.TimeClip.
  by rewrite (proj2 (Z.leb_gt _ _) Ht).
Qed.

Lemma truthy_number_out_of_range t :
  Date.maxTime < Z.abs t → truthy_number (Some t) = true.
Proof.
  intros Ht. simpl. apply negb_true_iff, Z.eqb_neq. intros ->.
  unfold Date.maxTime in Ht. simpl in Ht. lia.
Qed.

Lemma build_query_out_of_range b c token t :
  afterTimestamp b = Some t ∨ beforeTimestamp b = Some t →
  Date.maxTime < Z.abs t → build_query b c token = None.
Proof.
  intros Hb Ht. unfold build_query.
  pose proof (toISOString_beyond_range _ Ht) as Hiso.
  pose proof (truthy_number_out_of_range _ Ht) as Htruthy.
  destruct Hb as [Hb|Hb]; rewrite Hb, Htruthy; simpl; rewrite Hiso; simpl.
  - done.
  - destruct (truthy_number (afterTimestamp b)); [|done].
    by destruct (afterTimestamp b ≫= Date.toISOString).
Qed.

(** X4. A book built with a start or end timestamp beyond what a [Date] can
    hold never makes a request: its first call rejects with the [RangeError]
    of [toISOString], and since that call has already marked the first
    request as made, every later call is rejected by the guard. *)
Theorem out_of_range_timestamp_blocks_book options t c api apis :
  opt_afterTimestamp options = Some t ∨ opt_beforeTimestamp options = Some t →
  Date.maxTime < Z.abs t →
  let b := set_hasMadeInitialRequest true (new options) in
  run (new options) c (api :: apis)
  = {| book := b; client := c; requests := []; result := inl RangeError |}
    :: replicate (length apis) (tail_reached b c).
Proof.
  intros Hopt Ht b. cbn [run].
  assert (fetchNextPage (new options) c api
          = {| book := b; client := c; requests := [];
               result := inl RangeError |}) as ->.
  { change (fetchNextPage (new options) c api) with (fetchPages b c api None).
    unfold fetchPages.
    by rewrite (build_query_out_of_range b c None t Hopt Ht). }
  cbn [book client]. f_equal. by apply run_exhausted.
Qed.

Lemma out_of_range_timestamp_blocks_book_witness :
  Forall (λ o, requests o = [])
    (run (new far_future_options) plain_client
       [answers first_page; answers first_page; answers first_page]).
Proof.
  rewrite (out_of_range_timestamp_blocks_book far_future_options
             9000000000000000 plain_client (answers first_page)
             [answers first_page; answers first_page]);
    [|by left|reflexivity].
  repeat constructor.
Defined.

(** ** What a call leaves of the client *)

Lemma set_store_id c : set_store (tweets c) c = c.
Proof. by destruct c. Qed.

Lemma set_not_empty (col : list (Snowflake * Entity)) k v :
  Collection.set same_id col k v ≠ [].
Proof. destruct col as [|[k' v'] rest]; simpl; [done|]. by destruct (same_id k' k). Qed.

Lemma collect_not_empty s col raws inc :
  col ≠ [] ∨ raws ≠ [] → (collect s col raws inc).2 ≠ [].
Proof.
  revert s col. induction raws as [|raw rest IH]; intros s col Hne; simpl.
  - by destruct Hne.
  - destruct (add s (raw_id raw) raw inc) as [s' tweet].
    apply IH. left. apply set_not_empty.
Qed.

Lemma rejecting_call_keeps_client b c api e :
  result (fetchNextPage b c api) = inl e → client (fetchNextPage b c api) = c.
Proof. fetch_cases; done. Qed.

(** A call either gets an answer from the transport or leaves the client as
    it was. *)
Lemma unanswered_call_keeps_client b c api :
  (∃ resp, fetched b c api resp) ∨ client (fetchNextPage b c api) = c.
Proof.
  unfold fetched.
  destruct (requests (fetchNextPage b c api)) as [|q [|q' rest]] eqn:Hreq.
  - right. revert Hreq. fetch_cases; done.
  - destruct (fetchNextPage_requests _ _ _ _ Hreq) as [Hq Hcall].
    destruct (api q) as [reason|resp] eqn:Hres; [right|left; eauto].
    rewrite Hcall, (fetchPages_rejected _ _ _ _ _ _ Hq Hres). done.
  - exfalso. revert Hreq. fetch_cases; done.
Qed.

(** X7. A call that the transport did not answer (it was rejected by the
    guard, by the [RangeError] of a date, or by the transport itself), a call
    answered with a page that reports no result, and a call that resolves
    with an empty collection each leave the client as it was: the manager
    was not called. *)
Theorem fruitless_call_keeps_client b c api :
  let o := fetchNextPage b c api in
  ((∀ resp, ¬ fetched b c api resp) → client o = c) ∧
  (∀ resp, fetched b c api resp → result_count (meta resp) = 0 →
     client o = c) ∧
  (result o = inr [] → client o = c).
Proof.
  simpl. split; [|split].
  - intros Hnone.
    destruct (unanswered_call_keeps_client b c api) as [[resp Hf]|Hc]; [|done].
    by destruct (Hnone resp).
  - intros resp (q & Hreq & Hresp) Hzero.
    destruct (fetchNextPage_requests _ _ _ _ Hreq) as [Hq ->].
    unfold fetchPages. rewrite Hq, Hresp, Hzero. simpl.
    unfold sending. by destruct (negb (hasMadeInitialRequest b)).
  - fetch_cases; try done.
    all: intros [= ->].
    all: match goal with
         | H : collect _ [] ?raws _ = (_, []) |- _ =>
             destruct raws as [|raw rest];
             [simpl in H; injection H as <-; apply set_store_id|
              exfalso; eapply (collect_not_empty _ [] (raw :: rest));
              [by right|by rewrite H]]
         end.
Qed.

Lemma fruitless_call_keeps_client_witness :
  client (fetchNextPage (new rust_options) plain_client unreachable)
  = plain_client ∧
  client (fetchNextPage (new rust_options) plain_client
            (answers empty_last_page)) = plain_client.
Proof.
  split.
  - apply (proj1 (fruitless_call_keeps_client _ plain_client unreachable)).
    intros resp (q & _ & Hres). discriminate Hres.
  - apply (proj1 (proj2 (fruitless_call_keeps_client _ plain_client
                           (answers empty_last_page))) empty_last_page).
    + eexists. split; reflexivity.
    + reflexivity.
Defined.

(** ** A page that announces tweets and carries none *)

Lemma fetched_client_rejecting b c api resp :
  fetched b c api resp →
  result_count (meta resp) ≠ 0 → data resp = None →
  client (fetchNextPage b c api) = c.
Proof.
  intros Hf Hcount Hdata.
  apply (rejecting_call_keeps_client b c api TypeError).
  rewrite (fetched_result _ _ _ _ Hf), Hdata.
  by rewrite (proj2 (Z.eqb_neq _ _) Hcount).
Qed.

(** X5. When the response reports results but has no [data], the call rejects
    with the [TypeError] of the loop over [undefined]; by then the cursor has
    already taken the token of that response, so the next call goes on from
    the page after it. The client is untouched. *)
Theorem page_without_data_still_moves_cursor b c api resp :
  fetched b c api resp →
  result_count (meta resp) ≠ 0 → data resp = None →
  let o := fetchNextPage b c api in
  result o = inl TypeError ∧
  nextToken (book o) = next_token (meta resp) ∧
  hasMore (book o) = truthy_string (next_token (meta resp)) ∧
  client o = c ∧
  (∀ api' q, q ∈ requests (fetchNextPage (book o) (client o) api') →
     q_next_token q = next_token (meta resp)).
Proof.
  intros Hf Hcount Hdata o. unfold o.
  rewrite (fetched_result _ _ _ _ Hf), (fetched_book _ _ _ _ Hf), Hdata.
  rewrite (proj2 (Z.eqb_neq _ _) Hcount).
  split; [done|]. split; [done|]. split; [done|].
  split; [by apply (fetched_client_rejecting _ _ _ resp)|].
  intros api' q Hq.
  destruct (fetchNextPage_request _ _ _ _ Hq) as [Hbuild _].
  by apply build_query_fixed in Hbuild as [-> _].
Qed.

Lemma page_without_data_still_moves_cursor_witness :
  let o := fetchNextPage (new rust_options) plain_client
             (answers page_without_data) in
  result o = inl TypeError ∧
  nextToken (book o) = Some "7140dibdnow9c7btw3w29n".
Proof.
  assert (fetched (new rust_options) plain_client (answers page_without_data)
            page_without_data) as Hf by (eexists; split; reflexivity).
  assert (result_count (meta page_without_data) ≠ 0) as Hcount by (intros [=]).
  destruct (page_without_data_still_moves_cursor _ _ _ _ Hf Hcount eq_refl)
    as (Hres & Htok & _).
  split; [exact Hres | exact Htok].
Defined.

(** ** [hasMore] and the guard *)

Lemma fetchNextPage_hasMore_sound b c api :
  hasMore_sound b → hasMore_sound (book (fetchNextPage b c api)).
Proof.
  unfold hasMore_sound. fetch_cases; simpl; intros Hb Hmore; try done;
    try (split; [done|]; by apply Hb).
  all: destruct (Hb Hmore) as [? ?]; congruence.
Qed.

Lemma run_hasMore_sound apis : ∀ b c o,
  hasMore_sound b → o ∈ run b c apis → hasMore_sound (book o).
Proof.
  induction apis as [|api rest IH]; intros b c o Hb Ho.
  - by apply elem_of_nil in Ho.
  - simpl in Ho. apply elem_of_cons in Ho as [->|Ho].
    + by apply fetchNextPage_hasMore_sound.
    + eapply IH; [|done]. by apply fetchNextPage_hasMore_sound.
Qed.

(** X6. On a book made by the constructor, [hasMore = false] after any call
    can be trusted: the next call, and every call after it, is rejected by
    the guard without a request. *)
Theorem hasMore_false_means_rejected options c apis o :
  o ∈ run (new options) c apis → hasMore (book o) = false →
  ∀ api, fetchNextPage (book o) (client o) api
         = tail_reached (book o) (client o).
Proof.
  intros Ho Hmore api. apply fetchNextPage_guard.
  assert (hasMore_sound (new options)) as Hnew by (intros [=]).
  destruct (run_hasMore_sound _ _ _ _ Hnew Ho Hmore) as [Hdone Htok].
  unfold cursor_state. by rewrite Hdone, Htok.
Qed.

Lemma hasMore_false_means_rejected_witness :
  let o := fetchNextPage (new rust_options) plain_client
             (answers empty_last_page) in
  hasMore (book o) = false ∧
  fetchNextPage (book o) (client o) (answers first_page)
  = tail_reached (book o) (client o).
Proof.
  intros o. split; [reflexivity|].
  apply (hasMore_false_means_rejected rust_options plain_client
           [answers empty_last_page] o).
  - apply list_elem_of_here.
  - reflexivity.
Defined.

(** ** Looking a tweet up in the page *)

Lemma get_of_key (col : list (Snowflake * Entity)) k :
  k ∈ Collection.keys col →
  ∃ v, Collection.get same_id col k = Some v ∧ (k, v) ∈ col.
Proof.
  unfold Collection.keys.
  induction col as [|[k' v'] rest IH]; simpl; [by intros ?%elem_of_nil|].
  unfold same_id at 1. case_bool_decide as Hk.
  - subst k'. intros _. exists v'. split; [done|apply list_elem_of_here].
  - intros [Heq|Hin]%elem_of_cons; [by subst|].
    destruct (IH Hin) as (v & Hget & Hv). exists v.
    split; [done|by apply list_elem_of_further].
Qed.

(** X8. Every tweet of a page can be looked up by its identifier in the
    collection the call resolves with, and what is found is a tweet of that
    identifier; this holds also when the response carries a tweet twice. *)
Theorem page_tweets_can_be_looked_up b c api resp raws :
  fetched b c api resp →
  result_count (meta resp) ≠ 0 → data resp = Some raws →
  ∃ col, result (fetchNextPage b c api) = inr col ∧
    ∀ raw, raw ∈ raws →
      ∃ v, Collection.get same_id col (raw_id raw) = Some v ∧
           id v = raw_id raw.
Proof.
  intros Hf Hcount Hdata.
  rewrite (fetched_result _ _ _ _ Hf), Hdata.
  rewrite (proj2 (Z.eqb_neq _ _) Hcount).
  eexists. split; [reflexivity|]. intros raw Hraw.
  destruct (push_keys_spec (raw_id <$> raws) [] (NoDup_nil_2))
    as (extra & Heq & _ & _ & Hmem & _). simpl in Heq.
  destruct (get_of_key (collect (tweets c) [] raws (includes resp)).2
              (raw_id raw)) as (v & Hget & Hv).
  { rewrite collect_keys. simpl. rewrite Heq. apply Hmem.
    split; [by apply list_elem_of_fmap_2|by intros ?%elem_of_nil]. }
  exists v. split; [done|].
  eapply collect_values; [|done]. by intros k' v' ?%elem_of_nil.
Qed.

Lemma page_tweets_can_be_looked_up_witness :
  let o := fetchNextPage (new rust_options) plain_client
             (answers page_with_repeat) in
  ∃ col, result o = inr col ∧ length col = 2%nat ∧
    ∃ v, Collection.get same_id col "3" = Some v ∧ id v = "3".
Proof.
  assert (fetched (new rust_options) plain_client (answers page_with_repeat)
            page_with_repeat) as Hf by (eexists; split; reflexivity).
  assert (result_count (meta page_with_repeat) ≠ 0) as Hcount by (intros [=]).
  destruct (page_tweets_can_be_looked_up _ _ _ _ _ Hf Hcount eq_refl)
    as (col & Hres & Hget).
  exists col. split; [exact Hres|]. split.
  - vm_compute in Hres. by injection Hres as <-.
  - apply (Hget (tweet "3" "c")). apply list_elem_of_here.
Defined.

End BooksMore.

(** * The two revisions of [SearchTweetsBook] *)
Module RangeBookTheory.
Import RangeBook.

Lemma build_query_to_BaseBook b c token :
  Books.build_query (to_BaseBook b) c token = build_query b c token.
Proof. reflexivity. Qed.

Lemma collect_same s col raws inc :
  Books.collect s col raws inc = collect s col raws inc.
Proof.
  revert s col. induction raws as [|raw rest IH]; intros s col; simpl; [done|].
  destruct (TweetManager.add s (TweetManager.raw_id raw) raw inc). apply IH.
Qed.

Lemma fetchPages_to_BaseBook b c api token :
  Books.fetchPages (to_BaseBook b) c api token
  = to_BaseOutcome (fetchPages b c api token).
Proof.
  unfold Books.fetchPages, fetchPages.
  rewrite build_query_to_BaseBook.
  destruct (build_query b c token) as [q|]; [|done].
  destruct (api q) as [reason|resp]; [done|].
  destruct (Books.result_count (Books.meta resp) =? 0); [done|].
  destruct (Books.data resp) as [raws|]; [|done].
  rewrite collect_same.
  by destruct (collect (Books.tweets c) [] raws (Books.includes resp)).
Qed.

Lemma fetchNextPage_to_BaseBook b c api :
  Books.fetchNextPage (to_BaseBook b) c api
  = to_BaseOutcome (fetchNextPage b c api).
Proof.
  unfold Books.fetchNextPage, fetchNextPage. simpl.
  destruct (negb (_hasMadeInitialRequest b)).
  - apply (fetchPages_to_BaseBook (set__hasMadeInitialRequest true b)).
  - destruct (negb (truthy_string (_nextToken b))); [done|].
    apply fetchPages_to_BaseBook.
Qed.

(** X9. The revision of the book that extends [BaseRangeBook] and the one
    that extends [BaseBook] do the same: started from books with the same
    content and given the same answers, every call of a sequence makes the
    same requests, settles with the same value, and leaves the same client
    and a book with the same content. *)
Theorem revisions_agree b c apis :
  Books.run (to_BaseBook b) c apis = to_BaseOutcome <$> run b c apis.
Proof.
  revert b c. induction apis as [|api rest IH]; intros b c; simpl; [done|].
  rewrite fetchNextPage_to_BaseBook. f_equal. apply IH.
Qed.

(** ** A first request that fails, in the later revision *)

Lemma guard_rejects b c api :
  _hasMadeInitialRequest b = true → truthy_string (_nextToken b) = false →
  fetchNextPage b c api
  = {| book := b; client := c; requests := [];
       result := inl (CustomError "PAGINATED_RESPONSE_TAIL_REACHED") |}.
Proof. intros Hdone Htok. unfold fetchNextPage. by rewrite Hdone, Htok. Qed.

Lemma run_guard_rejects apis : ∀ b c o,
  _hasMadeInitialRequest b = true → truthy_string (_nextToken b) = false →
  o ∈ run b c apis →
  o = {| book := b; client := c; requests := [];
         result := inl (CustomError "PAGINATED_RESPONSE_TAIL_REACHED") |}.
Proof.
  induction apis as [|api rest IH]; intros b c o Hdone Htok Ho.
  - by apply elem_of_nil in Ho.
  - simpl in Ho. rewrite (guard_rejects _ _ _ Hdone Htok) in Ho.
    apply elem_of_cons in Ho as [->|Ho]; [done|]. by apply (IH b c).
Qed.

(** X10. In the later revision too, a book whose first request the transport
    rejects is spent: the call has marked the first request as made before it
    asked, no token was stored, and so every later call rejects with
    [PAGINATED_RESPONSE_TAIL_REACHED] without a request. *)
Theorem rejected_first_request_spends_book b c api q reason apis o :
  _hasMadeInitialRequest b = false → _nextToken b = None →
  requests (fetchNextPage b c api) = [q] → api q = inl reason →
  let o1 := fetchNextPage b c api in
  result o1 = inl (TransportFailure reason) ∧
  hasMore (book o1) = hasMore b ∧
  (o ∈ run (book o1) (client o1) apis →
   requests o = [] ∧
   result o = inl (CustomError "PAGINATED_RESPONSE_TAIL_REACHED")).
Proof.
  intros Hfresh Htok Hreq Hres. cbv zeta.
  assert (fetchNextPage b c api
          = {| book := set__hasMadeInitialRequest true b; client := c;
               requests := [q]; result := inl (TransportFailure reason) |})
    as Ho1.
  { revert Hreq. unfold fetchNextPage, fetchPages. rewrite Hfresh. simpl.
    destruct (build_query _ c None) as [q'|]; [|done].
    destruct (api q') as [reason'|resp] eqn:Hq'.
    - intros [= ->]. rewrite Hres in Hq'. by injection Hq' as ->.
    - destruct (Books.result_count (Books.meta resp) =? 0);
        [intros [= ->]; congruence|].
      destruct (Books.data resp) as [raws|]; [|intros [= ->]; congruence].
      destruct (collect (Books.tweets c) [] raws (Books.includes resp)).
      intros [= ->]; congruence. }
  rewrite Ho1. cbn [book client result].
  split; [done|]. split; [done|]. intros Ho.
  apply run_guard_rejects in Ho; [by subst o|done|]. simpl. by rewrite Htok.
Qed.

Lemma rejected_first_request_spends_book_witness :
  let b := {| _nextToken := None; _hasMadeInitialRequest := false;
              hasMore := true; maxResultsPerPage := Some 10;
              afterTweetId := None; beforeTweetId := None;
              startTimestamp := None; endTimestamp := None;
              query := Some "rust" |} in
  let o1 := fetchNextPage b Samples.plain_client Samples.unreachable in
  let o2 := fetchNextPage (book o1) (client o1)
              (Samples.answers Samples.first_page) in
  hasMore (book o1) = true ∧ requests o2 = [] ∧
  result o2 = inl (CustomError "PAGINATED_RESPONSE_TAIL_REACHED").
Proof.
  intros b o1 o2.
  assert (∃ q, requests o1 = [q]) as [q Hreq] by (eexists; reflexivity).
  destruct (rejected_first_request_spends_book b Samples.plain_client
              Samples.unreachable q "ECONNRESET"
              [Samples.answers Samples.first_page] o2
              eq_refl eq_refl Hreq eq_refl) as (_ & Hmore & Hlater).
  split; [exact Hmore|]. apply Hlater. apply list_elem_of_here.
Defined.

End RangeBookTheory.

(** * More properties of the stream listeners *)
Module StreamsMore.
Import JS Client StreamRecords JSTheory ClientTheory.

(** ** Which records are delivered *)

Lemma data_id_has_data v :
  (has_data v = true → ∃ rid, data_id v = inr rid) ∧
  (has_data v = false → data_id v = inl TypeError).
Proof.
  unfold has_data, data_id.
  destruct v as [| | | | |?|ms]; simpl; try (split; [done|done]).
  destruct (member ms (str "data")) as [d|]; simpl; [|split; done].
  destruct d; simpl; split; try done; eauto.
Qed.

Lemma reduce_rules_total rules : ∀ col,
  forallb (λ rule, negb (is_nullish rule)) rules = true →
  ∃ col', reduce_rules col rules = inr col'.
Proof.
  induction rules as [|rule rest IH]; intros col; simpl; [eauto|].
  intros [Hrule Hrest]%andb_true_iff.
  destruct rule; try discriminate Hrule; simpl; by apply IH.
Qed.

Lemma reduce_rules_null rules : ∀ col,
  forallb (λ rule, negb (is_nullish rule)) rules = false →
  reduce_rules col rules = inl TypeError.
Proof.
  induction rules as [|rule rest IH]; intros col; simpl; [done|].
  intros [Hrule|Hrest]%andb_false_iff.
  - by destruct rule.
  - destruct rule; simpl; try done; by apply IH.
Qed.

Lemma emitted_emit e c : emitted (emit e c) = emitted c ++ [e].
Proof. reflexivity. Qed.

(** One chunk that delivers adds one event. *)
Lemma on_data_delivers k c chunk :
  delivers k chunk = true →
  ∃ e, emitted (on_data k c chunk) = emitted c ++ [e].
Proof.
  unfold delivers. destruct (JSON_parse chunk) as [v|] eqn:Hv; [|done].
  intros [Hdata Hk]%andb_true_iff.
  destruct (proj1 (data_id_has_data v) Hdata) as [rid Hid].
  destruct k.
  - unfold has_rules in Hk.
    destruct (member_or_undefined v "matching_rules") as [| | | | |rules|] eqn:Hr;
      try discriminate Hk.
    destruct (reduce_rules_total rules [] Hk) as [col Hcol].
    simpl. rewrite (filtered_on_data_record _ _ _ _ _ _ Hv Hid Hr Hcol). eauto.
  - simpl. rewrite (sampled_on_data_record _ _ _ _ Hv Hid). eauto.
Qed.

(** One chunk that does not deliver adds none. *)
Lemma on_data_not_delivers k c chunk :
  delivers k chunk = false → emitted (on_data k c chunk) = emitted c.
Proof.
  unfold delivers. destruct (JSON_parse chunk) as [v|] eqn:Hv;
    [|intros _; by rewrite (on_data_undecodable _ _ _ Hv)].
  destruct (has_data v) eqn:Hdata; simpl.
  - destruct (proj1 (data_id_has_data v) Hdata) as [rid Hid].
    destruct k; [|done]. intros Hk. simpl. unfold filtered_on_data.
    rewrite Hv, Hid. destruct (_add (tweets c) rid v false) as [cache tweet].
    unfold has_rules in Hk.
    destruct (member_or_undefined v "matching_rules"); try done.
    by rewrite (reduce_rules_null _ [] Hk).
  - intros _. pose proof (proj2 (data_id_has_data v) Hdata) as Hid.
    destruct k; simpl; unfold filtered_on_data, sampled_on_data;
      by rewrite Hv, Hid.
Qed.

(** X11. Over a whole connection the listener emits one event for every
    chunk that, taken by itself, decodes to an object with a [data] member
    that is not [null] (and, on the filtered stream, with a [matching_rules]
    array free of [null]), and none for any other chunk: the events come
    after those emitted before, and they are as many as such chunks. *)
Theorem events_count_deliverable_chunks k chunks : ∀ c,
  ∃ events,
    emitted (consume k c chunks) = emitted c ++ events ∧
    length events = length (filter (λ chunk, delivers k chunk = true) chunks).
Proof.
  induction chunks as [|chunk rest IH]; intros c.
  - exists []. by rewrite app_nil_r.
  - change (consume k c (chunk :: rest))
      with (consume k (on_data k c chunk) rest).
    destruct (IH (on_data k c chunk)) as (events & Hemitted & Hlen).
    rewrite filter_cons. destruct (delivers k chunk) eqn:Hd.
    + destruct (on_data_delivers k c chunk Hd) as [e He].
      exists (e :: events). rewrite Hemitted, He, <- app_assoc.
      split; [done|]. rewrite decide_True by done. simpl. by rewrite Hlen.
    + exists events. rewrite Hemitted, (on_data_not_delivers k c chunk Hd).
      split; [done|]. by rewrite decide_False by done.
Qed.

(** X12. On the filtered stream a record with a tweet but without a usable
    [matching_rules] array produces no event, yet its tweet has been given to
    the manager by then; the same chunk on the sampled stream produces its
    event. *)
Theorem filtered_record_without_rules c chunk v rid :
  JSON_parse chunk = Some v → data_id v = inr rid → has_rules v = false →
  on_data Filtered c chunk = set_tweets (_add (tweets c) rid v false).1 c ∧
  emitted (on_data Sampled c chunk)
  = emitted c ++ [SAMPLED_TWEET_CREATE (_add (tweets c) rid v false).2].
Proof.
  intros Hv Hid Hrules. split.
  - unfold on_data, filtered_on_data. rewrite Hv, Hid.
    destruct (_add (tweets c) rid v false) as [cache tweet].
    unfold has_rules in Hrules.
    destruct (member_or_undefined v "matching_rules") as [| | | | |rules|];
      try reflexivity.
    by rewrite (reduce_rules_null _ [] Hrules).
  - simpl. by rewrite (sampled_on_data_record _ _ _ _ Hv Hid).
Qed.

Lemma filtered_record_without_rules_witness :
  let c := on_data Filtered (new [] None) plain_record in
  emitted c = [] ∧ length (tweets c) = 1%nat.
Proof.
  destruct (filtered_record_without_rules (new [] None) plain_record
              (Object [(str "data", Object [(str "id", Str (str "1"));
                                            (str "text", Str (str "hi"))])])
              (Str (str "1")) eq_refl eq_refl eq_refl) as [Hf _].
  intros c. unfold c. rewrite Hf. split; reflexivity.
Defined.

(** ** What the listener leaves alone *)

Lemma on_data_frame k c chunk :
  token (on_data k c chunk) = token c ∧
  readyAt (on_data k c chunk) = readyAt c ∧
  events (on_data k c chunk) = events c ∧
  queryParameters (on_data k c chunk) = queryParameters c ∧
  opened (on_data k c chunk) = opened c.
Proof.
  destruct k; simpl; unfold filtered_on_data, sampled_on_data;
    destruct (JSON_parse chunk) as [v|]; try done;
    destruct (data_id v) as [e|rid]; try done;
    destruct (_add (tweets c) rid v false) as [cache tweet]; try done.
  destruct (member_or_undefined v "matching_rules"); try done.
  by destruct (reduce_rules [] elements).
Qed.

(** X13. Whatever arrives on a stream, consuming it changes neither the
    token, nor the time of login, nor the subscriptions, nor the field
    selections of the client, and hands no new request to the transport: the
    listener never reconnects. *)
Theorem listener_leaves_session_alone k chunks : ∀ c,
  token (consume k c chunks) = token c ∧
  readyAt (consume k c chunks) = readyAt c ∧
  events (consume k c chunks) = events c ∧
  queryParameters (consume k c chunks) = queryParameters c ∧
  opened (consume k c chunks) = opened c.
Proof.
  induction chunks as [|chunk rest IH]; intros c; [done|].
  change (consume k c (chunk :: rest))
    with (consume k (on_data k c chunk) rest).
  destruct (IH (on_data k c chunk)) as (-> & -> & -> & -> & ->).
  apply on_data_frame.
Qed.

(** ** Two records in one chunk *)

Lemma lex_blank_prefix ws rest :
  blank ws = true → lex LStart (ws ++ rest) = lex LStart rest.
Proof.
  induction ws as [|c ws IH]; simpl; [done|].
  intros [Hc Hws]%andb_true_iff.
  rewrite (start_step_whitespace _ Hc). simpl. rewrite (IH Hws).
  by destruct (lex LStart rest).
Qed.

(** White space after a text that lexes ends its last token; the lexer starts
    afresh on what follows. *)
Lemma lex_app_blank input : ∀ st toks ws rest,
  lex st input = Some toks → blank ws = true → ws ≠ [] →
  lex st (input ++ ws ++ rest) = (toks ++.) <$> lex LStart rest.
Proof.
  induction input as [|c input IH]; intros st toks ws rest Hlex Hws Hne.
  - destruct ws as [|c ws]; [done|].
    apply andb_true_iff in Hws as [Hc Hws].
    cbn [app lex]. cbn [lex] in Hlex.
    destruct st; cbn [lex_end] in Hlex; try discriminate Hlex; cbn [lex_step].
    + injection Hlex as <-. rewrite (start_step_whitespace _ Hc). simpl.
      by rewrite (lex_blank_prefix _ _ Hws).
    + assert (toks = [number_token n]) as ->
        by (destruct ph; simpl in Hlex; congruence).
      rewrite (number_step_whitespace _ _ _ Hc Hlex). simpl.
      by rewrite (lex_blank_prefix _ _ Hws).
  - simpl in *.
    destruct (lex_step st c) as [[st' toks1]|]; simpl in *; [|done].
    destruct (lex st' input) as [toks2|] eqn:Hinput; simpl in *; [|done].
    injection Hlex as <-.
    rewrite (IH _ _ _ rest Hinput Hws Hne).
    destruct (lex LStart rest); simpl; [|done]. by rewrite app_assoc.
Qed.

(** Once a value is complete, any further token is an error. *)
Lemma parse_app ts1 : ∀ st v ts2,
  parse st ts1 = Some v → ts2 ≠ [] → parse st (ts1 ++ ts2) = None.
Proof.
  induction ts1 as [|t ts1 IH]; intros st v ts2 Hparse Hne; simpl in *.
  - destruct st; try discriminate Hparse.
    destruct ts2 as [|t ts2]; [done|]. simpl. by destruct t.
  - destruct (parse_step st t) as [st'|]; simpl in *; [|done].
    by apply (IH _ v).
Qed.

Lemma JSON_parse_two_texts first second v1 v2 ws :
  JSON_parse first = Some v1 → JSON_parse second = Some v2 →
  blank ws = true → ws ≠ [] →
  JSON_parse (first ++ ws ++ second) = None.
Proof.
  unfold JSON_parse. intros H1 H2 Hws Hne.
  destruct (lex LStart first) as [toks1|] eqn:Hlex1; [|done].
  destruct (lex LStart second) as [toks2|] eqn:Hlex2; [|done].
  rewrite (lex_app_blank _ _ _ _ second Hlex1 Hws Hne), Hlex2. simpl in *.
  apply (parse_app _ _ v1); [done|]. by intros ->.
Qed.

(** X14. A chunk that holds two records, one line after the other, is
    dropped whole: neither record produces an event and the client is as it
    was. *)
Theorem two_records_in_one_chunk_are_lost k c first second v1 v2 ws :
  JSON_parse first = Some v1 → JSON_parse second = Some v2 →
  blank ws = true → ws ≠ [] →
  on_data k c (first ++ ws ++ second) = c.
Proof.
  intros H1 H2 Hws Hne. apply on_data_undecodable.
  by apply (JSON_parse_two_texts _ _ v1 v2).
Qed.

Lemma two_records_in_one_chunk_are_lost_witness :
  on_data Sampled (new [] None)
    (plain_record ++ [13%N; 10%N] ++ text "{'data':{'id':'2'}}")
  = new [] None ∧
  length (emitted (consume Sampled (new [] None)
                     [plain_record; text "{'data':{'id':'2'}}"])) = 2%nat.
Proof.
  split; [|reflexivity].
  apply (two_records_in_one_chunk_are_lost Sampled (new [] None) plain_record
           (text "{'data':{'id':'2'}}")
           (Object [(str "data", Object [(str "id", Str (str "1"));
                                         (str "text", Str (str "hi"))])])
           (Object [(str "data", Object [(str "id", Str (str "2"))])])
           [13%N; 10%N]); reflexivity || done.
Defined.

End StreamsMore.

(** * More properties of login *)
Module SessionsTheory.
Import JS Client Sessions StreamRecords JSTheory ClientTheory StreamsMore.

(** ** Bearer-token login *)

(** What the three steps after the guard do to a client: one [READY], one
    request per subscribed stream. *)
Lemma ready_and_connect c :
  let c1 := emit READY c in
  let c2 := if bool_decide ("FILTERED_TWEET_CREATE" ∈ events c1)
            then connectToFilteredStream c1 else c1 in
  let c3 := if bool_decide ("SAMPLED_TWEET_CREATE" ∈ events c2)
            then connectToSampledStream c2 else c2 in
  token c3 = token c ∧ readyAt c3 = readyAt c ∧ events c3 = events c ∧
  queryParameters c3 = queryParameters c ∧ tweets c3 = tweets c ∧
  emitted c3 = emitted c ++ [READY] ∧
  opened c3 = opened c ++ subscriptions c.
Proof.
  unfold subscriptions. simpl.
  destruct (bool_decide ("FILTERED_TWEET_CREATE" ∈ events c)); simpl;
    destruct (bool_decide ("SAMPLED_TWEET_CREATE" ∈ events c)); simpl;
    rewrite ?app_nil_r, <- ?app_assoc; done.
Qed.

Lemma loginWithBearerToken_string c now t :
  loginWithBearerToken c now (Str t) = (connected (set_login t now c), inr t).
Proof.
  unfold loginWithBearerToken. cbn [typeof string_of].
  by rewrite bool_decide_eq_true_2.
Qed.

(** X15. [loginWithBearerToken] accepts any string, the empty one included,
    and returns it. It stores the token and the time, emits [READY] once and
    hands the transport one request for each stream the client subscribes to,
    the filtered stream first, however often and among whatever else the
    stream is listed; the tweets and the settings are untouched. *)
Theorem bearer_login_effects c now t :
  let r := loginWithBearerToken c now (Str t) in
  r.2 = inr t ∧
  token r.1 = Some t ∧ readyAt r.1 = Some now ∧
  emitted r.1 = emitted c ++ [READY] ∧
  opened r.1 = opened c ++ subscriptions c ∧
  tweets r.1 = tweets c ∧ events r.1 = events c ∧
  queryParameters r.1 = queryParameters c.
Proof.
  cbv zeta. rewrite loginWithBearerToken_string. cbn [fst snd].
  destruct (ready_and_connect (set_login t now c))
    as (Htok & Hat & Hev & Hqp & Htw & Hem & Hop).
  fold (connected (set_login t now c)) in Htok, Hat, Hev, Hqp, Htw, Hem, Hop.
  rewrite Htok, Hat, Hev, Hqp, Htw, Hem, Hop. done.
Qed.

(** X16. Nothing stops a second login: it emits [READY] again and requests
    every subscribed stream again, so that the client then holds two
    connections per stream; the token and the time are those of the second
    login. *)
Theorem second_login_connects_again c now1 t1 now2 t2 :
  let c1 := (loginWithBearerToken c now1 (Str t1)).1 in
  let c2 := (loginWithBearerToken c1 now2 (Str t2)).1 in
  token c2 = Some t2 ∧ readyAt c2 = Some now2 ∧
  emitted c2 = emitted c ++ [READY; READY] ∧
  opened c2 = opened c ++ subscriptions c ++ subscriptions c.
Proof.
  cbv zeta. rewrite !loginWithBearerToken_string. cbn [fst].
  set (c1 := connected (set_login t1 now1 c)).
  destruct (ready_and_connect (set_login t1 now1 c))
    as (_ & _ & Hev1 & Hqp1 & _ & Hem1 & Hop1).
  destruct (ready_and_connect (set_login t2 now2 c1))
    as (Htok & Hat & _ & _ & _ & Hem2 & Hop2).
  fold (connected (set_login t1 now1 c)) in Hev1, Hqp1, Hem1, Hop1.
  fold (connected (set_login t2 now2 c1)) in Htok, Hat, Hem2, Hop2.
  fold c1 in Hev1, Hqp1, Hem1, Hop1.
  rewrite Htok, Hat, Hem2, Hop2. cbn [set_login token readyAt emitted opened].
  rewrite Hem1, Hop1, <- !app_assoc. cbn [set_login emitted opened].
  replace (subscriptions (set_login t2 now2 c1))
    with (subscriptions (set_login t1 now1 c)); [done|].
  unfold subscriptions, stream_query.
  cbn [set_login events queryParameters]. by rewrite Hev1, Hqp1.
Qed.

(** ** The rules of a filtered record *)

Lemma set_fresh {K V : Type} (same : K → K → bool) (col : list (K * V)) k v :
  (∀ k' v', (k', v') ∈ col → same k' k = false) →
  Collection.set same col k v = col ++ [(k, v)].
Proof.
  induction col as [|[k' v'] rest IH]; intros Hfresh; simpl; [done|].
  rewrite (Hfresh k' v') by apply list_elem_of_here.
  rewrite IH; [done|]. intros k'' v'' Hin. apply (Hfresh k'' v'').
  by apply list_elem_of_further.
Qed.

Lemma get_rule_key rule i :
  rule_key rule = Str i → get rule (str "id") = inr (Str i).
Proof.
  unfold rule_key, member_or_undefined, get.
  destruct rule; simpl; try discriminate; by intros ->.
Qed.

Lemma reduce_rules_distinct rules : ∀ ids seen col,
  rule_key <$> rules = Str <$> ids →
  col.*1 = Str <$> seen →
  NoDup (seen ++ ids) →
  reduce_rules col rules
  = inr (col ++ ((λ rule, (rule_key rule, MatchingRule_new rule)) <$> rules)).
Proof.
  induction rules as [|rule rest IH]; intros ids seen col Hkeys Hcol Hnd.
  - simpl. by rewrite app_nil_r.
  - destruct ids as [|i ids]; [discriminate Hkeys|].
    injection Hkeys as Hkey Hkeys.
    cbn [reduce_rules]. rewrite (get_rule_key _ _ Hkey).
    rewrite set_fresh.
    + rewrite (IH ids (seen ++ [i])); [|done| |by rewrite <- app_assoc].
      * rewrite <- app_assoc. simpl. by rewrite Hkey.
      * rewrite !fmap_app, Hcol. done.
    + intros k' v' Hin.
      assert (k' ∈ Str <$> seen) as (j & -> & Hj)%list_elem_of_fmap.
      { rewrite <- Hcol. by apply (list_elem_of_fmap_2 fst _ (k', v')). }
      simpl. apply bool_decide_eq_false_2. intros ->.
      apply NoDup_app in Hnd as (_ & Hdisj & _).
      apply (Hdisj i Hj). apply list_elem_of_here.
Qed.

(** X17. On the filtered stream, a record whose rules have identifiers that
    are strings, no two alike, is delivered with a collection that holds one
    entry per rule, keyed by the identifier of the rule, in the order in which
    the record lists them. *)
Theorem matching_rules_are_keyed_by_id c chunk v rid rules ids :
  JSON_parse chunk = Some v → data_id v = inr rid →
  member_or_undefined v "matching_rules" = Array rules →
  rule_key <$> rules = Str <$> ids → NoDup ids →
  emitted (on_data Filtered c chunk)
  = emitted c
    ++ [FILTERED_TWEET_CREATE (_add (tweets c) rid v false).2
          ((λ rule, (rule_key rule, MatchingRule_new rule)) <$> rules)].
Proof.
  intros Hv Hid Hrules Hkeys Hnd.
  pose proof (reduce_rules_distinct rules ids [] [] Hkeys eq_refl Hnd) as Hcol.
  simpl in Hcol. simpl.
  by rewrite (filtered_on_data_record _ _ _ _ _ _ Hv Hid Hrules Hcol).
Qed.

Lemma matching_rules_are_keyed_by_id_witness :
  emitted (on_data Filtered (new [] None) Samples.matched_record)
  = [FILTERED_TWEET_CREATE
       {| id := Str (str "1"); fields := [(str "id", Str (str "1"))] |}
       [(Str (str "7"),
         {| rule_id := Str (str "7"); rule_tag := Str (str "cats") |})]].
Proof.
  apply (matching_rules_are_keyed_by_id (new [] None) Samples.matched_record
           Samples.matched_value (Str (str "1"))
           [Object [(str "id", Str (str "7")); (str "tag", Str (str "cats"))]]
           [str "7"]); try reflexivity.
  apply NoDup_singleton.
Defined.

End SessionsTheory.

(** * Properties of the user-context login *)
Module UserContextTheory.
Import JS Client Sessions UserContext SessionsTheory.

Section Login.
Context {ClientCredentials ClientUser : Type}.
Context (ClientCredentials_new : Value → Exception + ClientCredentials).
Context (bearerToken : ClientCredentials → jsstring).
Context (ClientUser_new : Client → Value → Exception + ClientUser).

(** The session once the credentials are stored and [users/me] was asked. *)
Lemma login_asks s now cred cc users_me :
  typeof cred = "object" → ClientCredentials_new cred = inr cc →
  let c1 := set_login (bearerToken cc) now (client s) in
  let s2 := ask (me_request (client s)) (set_client c1 (set_credentials cc s)) in
  UserContext.login ClientCredentials_new bearerToken ClientUser_new
      s now cred users_me
  = match users_me (me_request (client s)) with
    | inl reason => (s2, inl (TransportFailure reason))
    | inr data =>
        match ClientUser_new c1 data with
        | inl e => (s2, inl e)
        | inr user => (set_client (connected c1) (set_me user s2), inr cc)
        end
    end.
Proof.
  intros Htype Hcc. unfold UserContext.login, fetchClientUser.
  rewrite bool_decide_eq_true_2 by done. cbn [negb]. rewrite Hcc.
  cbn [set_client set_credentials client me_request].
  change (queryParameters (set_login (bearerToken cc) now (client s)))
    with (queryParameters (client s)).
  destruct (users_me _) as [reason|data]; [done|].
  by destruct (ClientUser_new _ data).
Qed.

(** X18. [login] rejects before it touches the session or the transport when
    the credentials are not of type object, with [INVALID_TYPE], and when
    the constructor of the credentials throws, with what it throws. [null]
    is of type object: it passes the first test and is left to the
    constructor. *)
Theorem user_login_rejects_early s now cred users_me :
  (typeof cred ≠ "object" →
     UserContext.login ClientCredentials_new bearerToken ClientUser_new
      s now cred users_me
     = (s, inl (CustomTypeError "INVALID_TYPE" "credentials" "object" true))) ∧
  (∀ e, typeof cred = "object" → ClientCredentials_new cred = inl e →
     UserContext.login ClientCredentials_new bearerToken ClientUser_new
      s now cred users_me = (s, inl e)) ∧
  typeof Null = "object".
Proof.
  split; [|split; [|done]].
  - intros Htype. unfold UserContext.login.
    by rewrite bool_decide_eq_false_2.
  - intros e Htype Hcc. unfold UserContext.login.
    rewrite bool_decide_eq_true_2 by done. cbn [negb]. by rewrite Hcc.
Qed.

(** X19. When the request for the user is rejected, [login] rejects with the
    failure of the transport and leaves the login half done: the credentials,
    the token and the time are stored, although no [READY] was emitted, no
    stream was requested and the user is as before. *)
Theorem failed_user_fetch_leaves_login_half_done s now cred cc users_me reason :
  typeof cred = "object" → ClientCredentials_new cred = inr cc →
  users_me (me_request (client s)) = inl reason →
  let r := UserContext.login ClientCredentials_new bearerToken ClientUser_new
      s now cred users_me in
  r.2 = inl (TransportFailure reason) ∧
  credentials r.1 = Some cc ∧
  token (client r.1) = Some (bearerToken cc) ∧
  readyAt (client r.1) = Some now ∧
  me r.1 = me s ∧
  emitted (client r.1) = emitted (client s) ∧
  opened (client r.1) = opened (client s) ∧
  asked r.1 = asked s ++ [me_request (client s)].
Proof.
  intros Htype Hcc Hme. cbv zeta.
  rewrite (login_asks _ _ _ _ _ Htype Hcc). cbv zeta. rewrite Hme. done.
Qed.

(** X20. A user-context login that succeeds does to the client exactly what
    a bearer-token login with the bearer token of the credentials does, after
    one request to [users/me] in user context; it stores the credentials and
    the user and returns the credentials. *)
Theorem user_login_is_bearer_login s now cred cc users_me data user :
  typeof cred = "object" → ClientCredentials_new cred = inr cc →
  users_me (me_request (client s)) = inr data →
  ClientUser_new (set_login (bearerToken cc) now (client s)) data = inr user →
  let r := UserContext.login ClientCredentials_new bearerToken ClientUser_new
      s now cred users_me in
  r.2 = inr cc ∧
  client r.1 = (loginWithBearerToken (client s) now (Str (bearerToken cc))).1 ∧
  credentials r.1 = Some cc ∧ me r.1 = Some user ∧
  asked r.1 = asked s ++ [me_request (client s)] ∧
  isUserContext (me_request (client s)) = true.
Proof.
  intros Htype Hcc Hme Huser. cbv zeta.
  rewrite (login_asks _ _ _ _ _ Htype Hcc). cbv zeta. rewrite Hme, Huser.
  rewrite loginWithBearerToken_string. done.
Qed.

End Login.

(** The number 42 and [null] for credentials. *)
Lemma user_login_rejects_early_witness :
  sample_login (sample_session []) 0 (Number 42 0) (λ _, inl "unreachable")
  = (sample_session [],
     inl (CustomTypeError "INVALID_TYPE" "credentials" "object" true)) ∧
  sample_login (sample_session []) 0 Null (λ _, inl "unreachable")
  = (sample_session [], inl (CustomError "CREDENTIALS_NOT_STRING")).
Proof.
  split.
  - destruct (user_login_rejects_early sample_credentials (λ t, t) sample_user
                (sample_session []) 0 (Number 42 0) (λ _, inl "unreachable"))
      as (Hnumber & _).
    apply Hnumber. intros [=].
  - destruct (user_login_rejects_early sample_credentials (λ t, t) sample_user
                (sample_session []) 0 Null (λ _, inl "unreachable"))
      as (_ & Hnull & _).
    apply Hnull; reflexivity.
Defined.

(** Credentials with a bearer token, and a transport that is down. *)
Lemma failed_user_fetch_leaves_login_half_done_witness :
  let r := sample_login (sample_session ["SAMPLED_TWEET_CREATE"]) 7
             (Object [(str "bearerToken", Str (str "AAAA"))])
             (λ _, inl "ECONNRESET") in
  r.2 = inl (TransportFailure "ECONNRESET") ∧
  token (client r.1) = Some (str "AAAA") ∧
  emitted (client r.1) = [] ∧ opened (client r.1) = [].
Proof.
  destruct (failed_user_fetch_leaves_login_half_done sample_credentials
              (λ t, t) sample_user (sample_session ["SAMPLED_TWEET_CREATE"]) 7
              (Object [(str "bearerToken", Str (str "AAAA"))]) (str "AAAA")
              (λ _, inl "ECONNRESET") "ECONNRESET" eq_refl eq_refl eq_refl)
    as (Hr & _ & Htok & _ & _ & Hem & Hop & _).
  split; [exact Hr|]. split; [exact Htok|]. split; [exact Hem | exact Hop].
Defined.

(** The same credentials, and a transport that answers. *)
Lemma user_login_is_bearer_login_witness :
  let r := sample_login (sample_session ["SAMPLED_TWEET_CREATE"]) 7
             (Object [(str "bearerToken", Str (str "AAAA"))])
             (λ _, inr (Object [(str "data", Object [])])) in
  r.2 = inr (str "AAAA") ∧
  emitted (client r.1) = [READY] ∧ length (opened (client r.1)) = 1%nat.
Proof.
  destruct (user_login_is_bearer_login sample_credentials
              (λ t, t) sample_user (sample_session ["SAMPLED_TWEET_CREATE"]) 7
              (Object [(str "bearerToken", Str (str "AAAA"))]) (str "AAAA")
              (λ _, inr (Object [(str "data", Object [])]))
              (Object [(str "data", Object [])])
              (Object [(str "data", Object [])])
              eq_refl eq_refl eq_refl eq_refl)
    as (Hr & Hc & _).
  split; [exact Hr|]. cbv zeta. unfold sample_login. rewrite Hc.
  split; reflexivity.
Defined.

End UserContextTheory.

(** * The number model on known values *)
Module NumberExamples.
Import JS.

Example one_tenth : to_double 1 (-1) = DFinite false 7205759403792794 (-56).
Proof. reflexivity. Qed.

Example same_number_other_spelling :
  sameValueZero (Number 1 0) (Number 1000 (-3)) = true ∧
  sameValueZero (Number 0 0) (Number 0 7) = true ∧
  sameValueZero (Number 1 0) (Number (-1) 0) = false.
Proof. repeat split. Qed.

(** Beyond 2 ^ 53 neighbouring integers are one double; a tie goes to the
    even mantissa. *)
Example integers_beyond_precision :
  sameValueZero (Number 9007199254740993 0) (Number 9007199254740992 0) = true ∧
  sameValueZero (Number 9007199254740995 0) (Number 9007199254740996 0) = true ∧
  sameValueZero (Number 9007199254740994 0) (Number 9007199254740992 0) = false.
Proof. repeat split. Qed.

Example overflow_and_underflow :
  to_double 17976931348623157 292 = DFinite false (2 ^ 53 - 1) 971 ∧
  to_double 17976931348623159 292 = DInfinity false ∧
  sameValueZero (Number 1 400) (Number 2 400) = true ∧
  to_double 22250738585072014 (-324) = DFinite false (2 ^ 52) (-1074) ∧
  to_double 22250738585072011 (-324) = DFinite false (2 ^ 52 - 1) (-1074) ∧
  to_double 5 (-324) = DFinite false 1 (-1074) ∧
  to_double 1 (-400) = DZero.
Proof. repeat split. Qed.

(** Two rules whose identifiers are numbers that are one double share one
    entry of the collection; the later rule takes it. *)
Example rules_with_one_double_for_id :
  Client.reduce_rules []
    [Object [(str "id", Number 9007199254740992 0); (str "tag", Str (str "a"))];
     Object [(str "id", Number 9007199254740993 0); (str "tag", Str (str "b"))]]
  = inr [(Number 9007199254740992 0,
          {| Client.rule_id := Number 9007199254740993 0;
             Client.rule_tag := Str (str "b") |})].
Proof. reflexivity. Qed.

End NumberExamples.
